(** * ZGC compiled-method (nmethod) integration and the ADLC assert macro

    [ZNMethod] (src/hotspot/share/gc/z/zNMethod.hpp) declares the interface
    through which the Z collector tracks the heap references embedded in
    compiled methods.  Only the declarations are part of this source tree;
    the behaviour of each operation is modelled from the specification of
    the subsystem.  The ADLC [assert] macro (src/hotspot/share/adlc/adlc.hpp)
    is embedded from its source text. *)

From Stdlib Require Import ZArith.
From stdpp Require Import base gmap list strings.

Module ZNMethod.

(** ** Data model *)

Inductive lifecycle := Registered | Unlinked | Purged.

#[global] Instance lifecycle_eq_dec : EqDecision lifecycle.
Proof. solve_decision. Defined.

Inductive ref_kind := Strong | Weak | Phantom.

(** Colored pointer: a raw address tagged with the epoch it was last
    validated against. *)
Record colored := mk_colored { raw_addr : Z; color_of : Z }.

Record slot := mk_slot {
  slot_offset : Z;
  slot_kind : ref_kind;
  slot_value : colored
}.

(** Per-method GC metadata. *)
Record nmethod_data := mk_nmethod_data {
  nm_slots : list slot;
  nm_epoch : Z;
  nm_guard : Z;
  nm_state : lifecycle;
  nm_lock : nat;
  nm_ic_lock : nat;
  nm_ic_pending : bool
}.

Inductive partition := Primary | Secondary.

#[global] Instance partition_eq_dec : EqDecision partition.
Proof. solve_decision. Defined.

Record session := mk_session { session_partition : partition; session_id : nat }.

#[global] Instance session_eq_dec : EqDecision session.
Proof. solve_decision. Defined.

(** Reachability classification of a heap object. *)
Inductive reach_class := StronglyReachable | WeaklyReachable | PhantomReachable | Unreachable.

(** An open iteration: the session id and the members of its snapshot
    not claimed yet. *)
Definition iteration := option (nat * list nat).

Record zstate := mk_zstate {
  registry : gmap nat nmethod_data;
  global_epoch : Z;
  next_lock : nat;
  primary_iter : iteration;
  secondary_iter : iteration;
  next_session : nat;
  reach : gmap Z reach_class
}.

(** Field updates. *)
Definition set_registry (r : gmap nat nmethod_data) (s : zstate) : zstate :=
  mk_zstate r (global_epoch s) (next_lock s) (primary_iter s) (secondary_iter s)
    (next_session s) (reach s).
Definition set_global_epoch (e : Z) (s : zstate) : zstate :=
  mk_zstate (registry s) e (next_lock s) (primary_iter s) (secondary_iter s)
    (next_session s) (reach s).
Definition set_next_lock (n : nat) (s : zstate) : zstate :=
  mk_zstate (registry s) (global_epoch s) n (primary_iter s) (secondary_iter s)
    (next_session s) (reach s).
Definition set_next_session (n : nat) (s : zstate) : zstate :=
  mk_zstate (registry s) (global_epoch s) (next_lock s) (primary_iter s)
    (secondary_iter s) n (reach s).
Definition set_reach (rc : gmap Z reach_class) (s : zstate) : zstate :=
  mk_zstate (registry s) (global_epoch s) (next_lock s) (primary_iter s)
    (secondary_iter s) (next_session s) rc.

Definition get_iter (p : partition) (s : zstate) : iteration :=
  match p with Primary => primary_iter s | Secondary => secondary_iter s end.

Definition set_iter (p : partition) (it : iteration) (s : zstate) : zstate :=
  match p with
  | Primary => mk_zstate (registry s) (global_epoch s) (next_lock s) it
                 (secondary_iter s) (next_session s) (reach s)
  | Secondary => mk_zstate (registry s) (global_epoch s) (next_lock s)
                 (primary_iter s) it (next_session s) (reach s)
  end.

Definition with_guard (g : Z) (d : nmethod_data) : nmethod_data :=
  mk_nmethod_data (nm_slots d) (nm_epoch d) g (nm_state d) (nm_lock d)
    (nm_ic_lock d) (nm_ic_pending d).

Definition with_state (st : lifecycle) (d : nmethod_data) : nmethod_data :=
  mk_nmethod_data (nm_slots d) (nm_epoch d) (nm_guard d) st (nm_lock d)
    (nm_ic_lock d) (nm_ic_pending d).

(** ** Colored reference codec *)

(** Modelled from the spec: the Colored Reference Codec (§4.3), whose
    implementation is not part of this tree.  Encoding tags a raw address
    with an epoch, decoding drops the tag. *)
Definition encode (addr epoch : Z) : colored := mk_colored addr epoch.
Definition decode (c : colored) : Z := raw_addr c.

Definition recolor_slot (epoch : Z) (sl : slot) : slot :=
  mk_slot (slot_offset sl) (slot_kind sl) (encode (decode (slot_value sl)) epoch).

(** ** Registry *)

(** Modelled from the spec: metadata lookup (§4.1); a Purged method has no
    metadata any more and the lookup fails. *)
Definition lookup_nmethod (m : nat) (s : zstate) : option nmethod_data :=
  match registry s !! m with
  | Some d => if decide (nm_state d = Purged) then None else Some d
  | None => None
  end.

(** Modelled from the spec: [ZNMethod::register_nmethod] (§4.1).  A second
    registration of the same identity is fatal; the new method is
    Registered, armed, and carries a stale epoch (one below the global
    epoch); it owns a fresh lock and a fresh inline-cache lock. *)
Definition register_nmethod (m : nat) (slots : list slot) (s : zstate) : option zstate :=
  match registry s !! m with
  | Some _ => None
  | None =>
      let stale := (global_epoch s - 1)%Z in
      let d := mk_nmethod_data slots stale stale Registered
                 (next_lock s) (S (next_lock s)) false in
      Some (set_next_lock (S (S (next_lock s))) (set_registry (<[m:=d]> (registry s)) s))
  end.

(** Modelled from the spec: [ZNMethod::unregister_nmethod] (§4.1), legal
    only from Registered, going straight to Purged. *)
Definition unregister_nmethod (m : nat) (s : zstate) : option zstate :=
  match registry s !! m with
  | Some d =>
      if decide (nm_state d = Registered)
      then Some (set_registry (<[m:=with_state Purged d]> (registry s)) s)
      else None
  | None => None
  end.

(** ** Lock provider *)

(** Modelled from the spec: [ZNMethod::lock_for_nmethod] and
    [ZNMethod::ic_lock_for_nmethod] (§4.5); fatal once Purged. *)
Definition lock_for_nmethod (m : nat) (s : zstate) : option nat :=
  match lookup_nmethod m s with Some d => Some (nm_lock d) | None => None end.

Definition ic_lock_for_nmethod (m : nat) (s : zstate) : option nat :=
  match lookup_nmethod m s with Some d => Some (nm_ic_lock d) | None => None end.

(** ** Barrier state machine *)

(** The guard value that means "disarmed" in the current epoch. *)
Definition disarmed_guard_value (s : zstate) : Z := global_epoch s.

Definition armed (d : nmethod_data) (s : zstate) : bool :=
  negb (Z.eqb (nm_guard d) (disarmed_guard_value s)).

(** Modelled from the spec: [ZNMethod::is_armed] (§4.2). *)
Definition is_armed (m : nat) (s : zstate) : option bool :=
  match lookup_nmethod m s with Some d => Some (armed d s) | None => None end.

(** Modelled from the spec: [ZNMethod::set_guard_value] (§4.2). *)
Definition set_guard_value (m : nat) (v : Z) (s : zstate) : option zstate :=
  match lookup_nmethod m s with
  | Some d => Some (set_registry (<[m:=with_guard v d]> (registry s)) s)
  | None => None
  end.

(** Modelled from the spec: [ZNMethod::disarm] (§4.2): the guard takes the
    disarmed value of the current epoch. *)
Definition disarm (m : nat) (s : zstate) : option zstate :=
  set_guard_value m (disarmed_guard_value s) s.

(** Modelled from the spec: [ZNMethod::color] (§4.3). *)
Definition color (m : nat) (s : zstate) : option Z :=
  match lookup_nmethod m s with Some d => Some (nm_epoch d) | None => None end.

(** The collector driver advances the epoch once per phase; every method
    whose guard is not the new disarmed value is thereby armed again. *)
Definition advance_epoch (s : zstate) : zstate :=
  set_global_epoch (global_epoch s + 1)%Z s.

(** The repair: every slot re-colored to the current epoch, the
    outstanding inline-cache patch applied, the epoch stamped. *)
Definition repair_data (epoch : Z) (d : nmethod_data) : nmethod_data :=
  mk_nmethod_data (map (recolor_slot epoch) (nm_slots d)) epoch (nm_guard d)
    (nm_state d) (nm_lock d) (nm_ic_lock d) false.

(** Modelled from the spec: the entry-barrier trip (§4.2).  An armed
    method is repaired under its lock and then disarmed; a disarmed one is
    left as it is. *)
Definition nmethod_entry_barrier (m : nat) (s : zstate) : option zstate :=
  match lookup_nmethod m s with
  | None => None
  | Some d =>
      if armed d s then
        match lock_for_nmethod m s with
        | None => None
        | Some _ =>
            let s1 := set_registry (<[m:=repair_data (global_epoch s) d]> (registry s)) s in
            disarm m s1
        end
      else Some s
  end.

(** ** Load policies *)

(** Modelled from the spec: [ZNMethod::oop_load] (§4.3).  The reference
    stored in slot [index] is decoded; a keep-alive load promotes it to
    strongly reachable, a plain load has no reachability side effect. *)
Definition oop_load (m : nat) (index : nat) (keep_alive : bool) (s : zstate)
  : option (Z * zstate) :=
  match lookup_nmethod m s with
  | None => None
  | Some d =>
      match nm_slots d !! index with
      | None => None
      | Some sl =>
          let r := decode (slot_value sl) in
          if keep_alive
          then Some (r, set_reach (<[r:=StronglyReachable]> (reach s)) s)
          else Some (r, s)
      end
  end.

(** Modelled from the spec: [ZNMethod::oop_load_no_keepalive] (§4.3). *)
Definition oop_load_no_keepalive (m : nat) (index : nat) (s : zstate) : option (Z * zstate) :=
  oop_load m index false s.

(** Modelled from the spec: [ZNMethod::oop_load_phantom] (§4.3): the
    reference is returned without any promotion. *)
Definition oop_load_phantom (m : nat) (index : nat) (s : zstate) : option (Z * zstate) :=
  match lookup_nmethod m s with
  | None => None
  | Some d =>
      match nm_slots d !! index with
      | None => None
      | Some sl => Some (decode (slot_value sl), s)
      end
  end.

(** ** Concurrent iteration coordinator *)

(** The members of a new session: every method Registered right now. *)
Definition registered_ids (r : gmap nat nmethod_data) : list nat :=
  elements (dom (filter (fun kv : nat * nmethod_data => nm_state kv.2 = Registered) r) : gset nat).

(** Modelled from the spec: [ZNMethod::nmethods_do_begin] (§4.4).  Fatal
    when a session is already open on the partition; otherwise the
    snapshot of Registered methods becomes the membership of a fresh
    session. *)
Definition nmethods_do_begin (p : partition) (s : zstate) : option (session * zstate) :=
  match get_iter p s with
  | Some _ => None
  | None =>
      let sid := next_session s in
      Some (mk_session p sid,
            set_next_session (S sid) (set_iter p (Some (sid, registered_ids (registry s))) s))
  end.

(** Modelled from the spec: [ZNMethod::nmethods_do] (§4.4, §5).  One claim
    of a worker driving the session: it takes the next [S k] members not
    claimed yet (fewer when fewer are left), so that workers claim disjoint
    members, and hands them to the visitor; a worker's [for_each] is done
    when a claim returns none.  Returns the claimed methods in visiting
    order. *)
Definition nmethods_do (sess : session) (k : nat) (s : zstate) : option (list nat * zstate) :=
  match get_iter (session_partition sess) s with
  | Some (sid, unclaimed) =>
      if decide (sid = session_id sess)
      then Some (firstn (S k) unclaimed,
                 set_iter (session_partition sess) (Some (sid, skipn (S k) unclaimed)) s)
      else None
  | None => None
  end.

(** Modelled from the spec: [ZNMethod::nmethods_do_end] (§4.4).  Fatal
    unless [sess] is the session open on its partition. *)
Definition nmethods_do_end (sess : session) (s : zstate) : option zstate :=
  match get_iter (session_partition sess) s with
  | Some (sid, _) =>
      if decide (sid = session_id sess)
      then Some (set_iter (session_partition sess) None s)
      else None
  | None => None
  end.

(** ** Unlink and purge *)

(** Modelled from the spec: [ZNMethod::unlink] (§4.6).  A Registered method
    on a dead code path, or of an unloaded class when unloading occurred,
    becomes Unlinked; the reachability verdicts come from outside. *)
Definition unlink (unloading_occurred : bool) (dead_code class_unloaded : nat -> bool)
    (s : zstate) : zstate :=
  set_registry
    (map_imap (fun k d =>
       Some (if decide (nm_state d = Registered)
             then if dead_code k || (unloading_occurred && class_unloaded k)
                  then with_state Unlinked d else d
             else d)) (registry s)) s.

(** Modelled from the spec: [ZNMethod::purge_nmethod] (§4.6):
    Unlinked goes to Purged; anything else is fatal. *)
Definition purge_nmethod (m : nat) (s : zstate) : option zstate :=
  match registry s !! m with
  | Some d =>
      if decide (nm_state d = Unlinked)
      then Some (set_registry (<[m:=with_state Purged d]> (registry s)) s)
      else None
  | None => None
  end.

(** Modelled from the spec: [ZNMethod::purge] (§4.6): every Unlinked
    method with no frame left on a stack is purged; the stack walk is
    external. *)
Definition purge (on_stack : nat -> bool) (s : zstate) : zstate :=
  set_registry
    (map_imap (fun k d =>
       Some (if decide (nm_state d = Unlinked)
             then if on_stack k then d else with_state Purged d
             else d)) (registry s)) s.

(** ** Operations on the subsystem *)

Inductive op :=
| ORegister (m : nat) (slots : list slot)
| OUnregister (m : nat)
| ODisarm (m : nat)
| OSetGuard (m : nat) (v : Z)
| OEntryBarrier (m : nat)
| OAdvanceEpoch
| OBegin (p : partition)
| ONMethodsDo (sess : session) (k : nat)
| OEnd (sess : session)
| OUnlink (unloading_occurred : bool) (dead_code class_unloaded : nat -> bool)
| OPurge (on_stack : nat -> bool)
| OPurgeNMethod (m : nat)
| OLoad (m : nat) (index : nat) (keep_alive : bool)
| OLoadPhantom (m : nat) (index : nat).

Definition step (o : op) (s : zstate) : option zstate :=
  match o with
  | ORegister m sl => register_nmethod m sl s
  | OUnregister m => unregister_nmethod m s
  | ODisarm m => disarm m s
  | OSetGuard m v => set_guard_value m v s
  | OEntryBarrier m => nmethod_entry_barrier m s
  | OAdvanceEpoch => Some (advance_epoch s)
  | OBegin p => option_map snd (nmethods_do_begin p s)
  | ONMethodsDo sess k => option_map snd (nmethods_do sess k s)
  | OEnd sess => nmethods_do_end sess s
  | OUnlink uo dc cu => Some (unlink uo dc cu s)
  | OPurge os => Some (purge os s)
  | OPurgeNMethod m => purge_nmethod m s
  | OLoad m i ka => option_map snd (oop_load m i ka s)
  | OLoadPhantom m i => option_map snd (oop_load_phantom m i s)
  end.

Fixpoint run (os : list op) (s : zstate) : option zstate :=
  match os with
  | [] => Some s
  | o :: os' => match step o s with Some s' => run os' s' | None => None end
  end.

(** A step that also records each claim: the session and the methods
    handed to the visitor. *)
Definition step_visits (o : op) (s : zstate) : option (list (session * list nat) * zstate) :=
  match o with
  | ONMethodsDo sess k => option_map (fun r => ([(sess, r.1)], r.2)) (nmethods_do sess k s)
  | _ => option_map (fun s' => ([], s')) (step o s)
  end.

Fixpoint run_visits (os : list op) (s : zstate) : option (list (session * list nat) * zstate) :=
  match os with
  | [] => Some ([], s)
  | o :: os' =>
      match step_visits o s with
      | Some (tr1, s1) =>
          match run_visits os' s1 with
          | Some (tr2, s') => Some (tr1 ++ tr2, s')
          | None => None
          end
      | None => None
      end
  end.

(** The methods visited in session [sess], over all claims of a run. *)
Definition session_visits (sess : session) (tr : list (session * list nat)) : list nat :=
  concat (map snd (List.filter (fun e => bool_decide (e.1 = sess)) tr)).

(** Whether an operation opens or closes a session on partition [p]. *)
Definition brackets (p : partition) (o : op) : bool :=
  match o with
  | OBegin q => if decide (q = p) then true else false
  | OEnd sess => if decide (session_partition sess = p) then true else false
  | _ => false
  end.

Definition empty_state : zstate := mk_zstate ∅ 1%Z 0 None None 0 ∅.

End ZNMethod.

(** ** The ADLC [assert] macro (src/hotspot/share/adlc/adlc.hpp)

<<
#define assert(cond, msg) { if (!(cond)) { fprintf(stderr, "assert fails %s %d: %s\n", __FILE__, __LINE__, msg); abort(); }}
>>

    A process is its store of variables, what it has written to stderr, and
    whether it has been aborted.  [cond] is a C expression over the store;
    its value is tested against 0 as [!(cond)] does. *)
Module Adlc.

Record process := mk_process {
  store : gmap string Z;
  stderr : list string;
  aborted : bool
}.

Definition expr := gmap string Z -> Z.

Inductive stmt :=
| SAssert (file : string) (line : nat) (cond : expr) (msg : string)
| SAssign (x : string) (e : expr).

(** [%d] of a non-negative [int]. *)
Fixpoint digits_aux (fuel n : nat) (acc : string) : string :=
  match fuel with
  | O => acc
  | S f =>
      let acc' := String (Ascii.ascii_of_nat (48 + n mod 10)) acc in
      if Nat.ltb n 10 then acc' else digits_aux f (n / 10) acc'
  end.

Definition format_int (n : nat) : string := digits_aux (S n) n EmptyString.

Definition newline : string := String (Ascii.ascii_of_nat 10) EmptyString.

(** The text printed by [fprintf(stderr, "assert fails %s %d: %s\n", ...)]. *)
Definition assert_message (file : string) (line : nat) (msg : string) : string :=
  String.append "assert fails "
    (String.append file
      (String.append " "
        (String.append (format_int line)
          (String.append ": " (String.append msg newline))))).

Definition fprintf_stderr (txt : string) (p : process) : process :=
  mk_process (store p) (stderr p ++ [txt]) (aborted p).

Definition abort (p : process) : process :=
  mk_process (store p) (stderr p) true.

(** One statement; an aborted process executes nothing any more. *)
Definition exec_stmt (st : stmt) (p : process) : process :=
  if aborted p then p else
  match st with
  | SAssert file line cond msg =>
      if negb (Z.eqb (cond (store p)) 0) then p
      else abort (fprintf_stderr (assert_message file line msg) p)
  | SAssign x e => mk_process (<[x:=e (store p)]> (store p)) (stderr p) (aborted p)
  end.

Fixpoint exec (sts : list stmt) (p : process) : process :=
  match sts with
  | [] => p
  | st :: rest => exec rest (exec_stmt st p)
  end.

End Adlc.

(** ** The ADLC [max] macro (src/hotspot/share/adlc/adlc.hpp)

<<
#define max(a, b)   (((a)>(b)) ? (a) : (b))
>>

    The arguments are C expressions that may have side effects on the
    store.  Both are evaluated for the comparison (left operand first), and
    the chosen one is evaluated once more for the result. *)
Module AdlcMax.

Definition cexpr := gmap string Z -> Z * gmap string Z.

Definition max_macro (a b : cexpr) : cexpr := fun st =>
  let (va, st1) := a st in
  let (vb, st2) := b st1 in
  if Z.gtb va vb then a st2 else b st2.

(** The expression [x]: a read of variable [x] (0 when unset). *)
Definition var (x : string) : cexpr := fun st => (default 0%Z (st !! x), st).

(** The expression [x++]. *)
Definition post_incr (x : string) : cexpr := fun st =>
  let v := default 0%Z (st !! x) in (v, <[x:=(v + 1)%Z]> st).

(** An expression without side effects. *)
Definition pure (e : cexpr) : Prop := forall st, snd (e st) = st.

End AdlcMax.

(** ** Argument handling of diagnostic commands
    (src/hotspot/share/services/diagnosticCommand.cpp)

    Each [execute] is embedded as a function of its parsed arguments (an
    argument that was not given on the command line is [None]) and of the
    values it obtains from the rest of the VM; it returns the lines it
    prints and the action it hands over to the VM. *)
Module DCmd.

Definition two32 : Z := 4294967296.

(** Conversion of a [jlong] to [uint] and to [int] (two's complement). *)
Definition to_uint (z : Z) : Z := Z.modulo z two32.
Definition to_int (z : Z) : Z :=
  let u := Z.modulo z two32 in if Z.ltb u 2147483648 then u else (u - two32)%Z.

(** [JLONG_FORMAT] / [%d]. *)
Definition format_jlong (z : Z) : string :=
  if Z.ltb z 0 then String.append "-" (Adlc.format_int (Z.to_nat (- z)))
  else Adlc.format_int (Z.to_nat z).

(** *** HeapDumpDCmd::execute *)

Record heap_dump_args := mk_heap_dump_args {
  hd_filename : string;
  hd_all : bool;
  hd_gzip : option Z;
  hd_overwrite : bool;
  hd_parallel : option Z
}.

(** [HeapDumper dumper(request_gc); dumper.dump(file, out, (int) level, overwrite, (uint) parallel)] *)
Inductive heap_dump_action :=
| HeapDump (request_gc : bool) (file : string) (level : Z) (overwrite : bool) (parallel : Z).

Definition heap_dump_execute (default_num_of_dump_threads : Z) (a : heap_dump_args)
  : list string * option heap_dump_action :=
  let level_res :=
    match hd_gzip a with
    | None => inl (-1)%Z
    | Some level =>
        if Z.ltb level 1 || Z.ltb 9 level
        then inr (String.append "Compression level out of range (1-9): " (format_jlong level))
        else inl level
    end in
  match level_res with
  | inr msg => ([msg], None)
  | inl level =>
      let par_res :=
        match hd_parallel a with
        | None => inl default_num_of_dump_threads
        | Some parallel =>
            if Z.ltb parallel 0 then inr "Invalid number of parallel dump threads."%string
            else if Z.eqb parallel 0 then inl 1%Z
            else inl parallel
        end in
      match par_res with
      | inr msg => ([msg], None)
      | inl parallel =>
          ([], Some (HeapDump (negb (hd_all a)) (hd_filename a) (to_int level)
                      (hd_overwrite a) (to_uint parallel)))
      end
  end.

(** *** ClassHistogramDCmd::execute *)

(** [VM_GC_HeapInspection heapop(out, request_full_gc, parallel_thread_num)] *)
Inductive histogram_action := HeapInspection (request_full_gc : bool) (threads : Z).

(** [MAX2<uint>(1, (uint)os::initial_active_processor_count() * 3 / 8)] *)
Definition default_histogram_threads (processors : Z) : Z :=
  Z.max 1 (Z.div (to_uint (to_uint processors * 3)) 8).

(** The conditional [num == 0 ? MAX2<uint>(...) : num] has type [jlong]; it
    initializes a [uint]. *)
Definition class_histogram_execute (processors : Z) (all : bool) (num : Z)
  : list string * option histogram_action :=
  if Z.ltb num 0
  then ([String.append "Parallel thread number out of range (>=0): " (format_jlong num)], None)
  else
    let parallel_thread_num :=
      to_uint (if Z.eqb num 0 then default_histogram_threads processors else num) in
    ([], Some (HeapInspection (negb all) parallel_thread_num)).

(** *** EventLogDCmd::execute *)

Inductive event_log_action :=
| PrintOne (log_name : string) (max : Z)
| PrintAll (max : Z).

Definition dquote : string := String (Ascii.ascii_of_nat 34) EmptyString.

Definition event_log_execute (log : option string) (max_value : Z)
  : list string * option event_log_action :=
  let max := to_int max_value in
  if Z.ltb max 0
  then ([String.append "Invalid max option: "
          (String.append dquote (String.append (format_jlong max) (String.append dquote ".")))],
        None)
  else match log with
       | Some log_name => ([], Some (PrintOne log_name max))
       | None => ([], Some (PrintAll max))
       end.

(** *** JVMTIAgentLoadDCmd::execute *)

(** [strrchr(s, c)]: the suffix starting at the last occurrence of [c]. *)
Fixpoint strrchr (s : string) (c : Ascii.ascii) : option string :=
  match s with
  | EmptyString => None
  | String a rest =>
      match strrchr rest c with
      | Some r => Some r
      | None => if Ascii.eqb a c then Some s else None
      end
  end.

(** [strncmp(s1, s2, n) == 0] *)
Fixpoint strncmp_eq (n : nat) (s1 s2 : string) : bool :=
  match n with
  | O => true
  | S n' =>
      match s1, s2 with
      | EmptyString, EmptyString => true
      | String a r1, String b r2 => Ascii.eqb a b && strncmp_eq n' r1 r2
      | _, _ => false
      end
  end.

(** [jio_snprintf(buf, len, "%s=%s", a, b)]: at most [len - 1] characters. *)
Definition snprintf_key_value (len : nat) (a b : string) : string :=
  String.substring 0 (len - 1) (String.append a (String.append "=" b)).

(** [JvmtiAgentList::load_agent(name, is_absolute_path, options, out)] *)
Inductive agent_action := LoadAgent (name : string) (is_absolute_path : bool) (options : option string).

Definition is_java_agent (libpath : string) : bool :=
  match strrchr libpath (Ascii.ascii_of_nat 46) with
  | Some suffix => strncmp_eq 4 ".jar" suffix
  | None => false
  end.

(** [malloc_ok] is whether [os::malloc] returned a buffer. *)
Definition jvmti_agent_load_execute (malloc_ok : bool) (libpath agent_option : option string)
  : list string * option agent_action :=
  match libpath with
  | None => (["JVMTI.agent_load dcmd needs library path."%string], None)
  | Some lib =>
      if is_java_agent lib then
        match agent_option with
        | None => ([], Some (LoadAgent "instrument" false (Some lib)))
        | Some opt =>
            let opt_len := (String.length lib + String.length opt + 2)%nat in
            if Nat.ltb 4096 opt_len
            then (["JVMTI agent attach failed: Options is too long."%string], None)
            else if negb malloc_ok
            then ([String.append "JVMTI agent attach failed: Could not allocate "
                     (String.append (Adlc.format_int opt_len) " bytes for argument.")], None)
            else ([], Some (LoadAgent "instrument" false (Some (snprintf_key_value opt_len lib opt))))
        end
      else ([], Some (LoadAgent lib true agent_option))
  end.

(** *** JMXStartRemoteDCmd::execute: the [PUT_OPTION] sequence *)

Inductive jmx_arg :=
| IntArg (name : string) (value : option Z)
| StrArg (name : string) (value : option string).

Definition arg_name (a : jmx_arg) : string :=
  match a with IntArg n _ => n | StrArg n _ => n end.

(** [(a).type()] *)
Definition arg_type (a : jmx_arg) : string :=
  match a with IntArg _ _ => "INT" | StrArg _ _ => "STRING" end.

Definition arg_is_set (a : jmx_arg) : bool :=
  match a with IntArg _ v => bool_decide (is_Some v) | StrArg _ v => bool_decide (is_Some v) end.

(** [*((a).type()) == 'I'] *)
Definition type_is_int (a : jmx_arg) : bool :=
  match arg_type a with
  | String c _ => Ascii.eqb c (Ascii.ascii_of_nat 73)
  | EmptyString => false
  end.

(** The printed value: [JLONG_FORMAT] of the [jlong] for an 'I' type, the
    string otherwise. *)
Definition arg_value_text (a : jmx_arg) : string :=
  if type_is_int a then
    match a with IntArg _ (Some v) => format_jlong v | _ => EmptyString end
  else
    match a with StrArg _ (Some s) => s | _ => EmptyString end.

Definition put_option_text (comma : string) (a : jmx_arg) : string :=
  String.append comma (String.append "com.sun.management."
    (String.append (arg_name a) (String.append "=" (arg_value_text a)))).

(** One [PUT_OPTION(a)]: the options stream and the [comma] buffer. *)
Definition put_option (st : string * string) (a : jmx_arg) : string * string :=
  let (options, comma) := st in
  if arg_is_set a then (String.append options (put_option_text comma a), ","%string)
  else (options, comma).

Definition jmx_options (args : list jmx_arg) : string :=
  fst (fold_left put_option args (EmptyString, EmptyString)).

(** *** DumpSharedArchiveDCmd::execute *)

(** [CDS.dumpSharedArchive(is_static, file)] *)
Inductive cds_action := DumpSharedArchive (is_static : bool) (file : option string).

(** The rest of the command once [is_static] is chosen: the file name
    string is made ([create_from_str(file, CHECK)], only for a given file),
    the [CDS] class resolved ([resolve_or_fail(..., CHECK)]), each returning
    at once on a pending exception ([file_string_ok], [cds_class_ok] say
    they do not); then [CDS.dumpSharedArchive] is called and, unless it
    leaves an exception pending ([result = None]), the archive name it
    returns is printed. *)
Definition dump_shared_archive_call (file_string_ok cds_class_ok : bool) (result : option string)
    (printed : list string) (is_static : bool) (file : option string)
  : list string * option cds_action :=
  if match file with Some _ => negb file_string_ok | None => false end then (printed, None)
  else if negb cds_class_ok then (printed, None)
  else (printed ++ match result with Some name => [name] | None => [] end,
        Some (DumpSharedArchive is_static file)).

(** The text printed ([print] pieces and [print_cr] lines) and the call. *)
Definition dump_shared_archive_execute (is_using_archive record_dynamic_dump_info : bool)
    (file_string_ok cds_class_ok : bool) (result : option string)
    (scmd : string) (filename : option string) : list string * option cds_action :=
  let file := filename in
  if String.eqb scmd "static_dump" then
    dump_shared_archive_call file_string_ok cds_class_ok result
      ["Static dump: "%string] true file
  else if String.eqb scmd "dynamic_dump" then
    if negb is_using_archive then
      (["Dynamic dump: "%string;
        "Dynamic dump is unsupported when base CDS archive is not loaded"%string], None)
    else if negb record_dynamic_dump_info then
      (["Dynamic dump: "%string;
        "Dump dynamic should run with -XX:+RecordDynamicDumpInfo"%string], None)
    else dump_shared_archive_call file_string_ok cds_class_ok result
           ["Dynamic dump: "%string] false file
  else (["Invalid command for VM.cds, valid input is static_dump or dynamic_dump"%string], None).

End DCmd.

(** ** OopStorageSetTest (test/hotspot/gtest/gc/shared/test_oopStorageSet.cpp)

    Storages are pointers: [None] is [nullptr], [Some n] a storage. *)
Module OopStorageSetTest.

Definition ptr := option nat.

(** [find_storage<count>(s, storages)]: index of [s], or [count]. *)
Fixpoint find_storage_from (i : nat) (s : ptr) (storages : list ptr) : nat :=
  match storages with
  | [] => i
  | x :: rest => if decide (s = x) then i else find_storage_from (S i) s rest
  end.

Definition find_storage (s : ptr) (storages : list ptr) : nat := find_storage_from 0 s storages.

(** The loop of [check_iteration] over the storages of the range: every
    storage is looked up, [ASSERT_LT(index, count)] fails the test when it
    is missing, and the slot found is cleared. *)
Fixpoint iterate_range (range : list ptr) (storages : list ptr) : option (list ptr) :=
  match range with
  | [] => Some storages
  | s :: rest =>
      let index := find_storage s storages in
      if Nat.ltb index (length storages)
      then iterate_range rest (<[index:=None]> storages)
      else None
  end.

(** [check_iteration<count>(range, storages)]: passes when all asserts hold. *)
Definition check_iteration (range : list ptr) (storages : list ptr) : bool :=
  Nat.eqb (length range) (length storages) &&
  match iterate_range range storages with
  | Some rest => forallb (fun p => bool_decide (p = None)) rest
  | None => false
  end.

End OopStorageSetTest.

Import ZNMethod.

(** ** Sample runs *)

Definition slot_a : slot := mk_slot 16 Strong (encode 4096 0).
Definition slot_b : slot := mk_slot 32 Weak (encode 8192 0).

(** The metadata a successful registration creates. *)
Definition fresh_data (slots : list slot) (s : zstate) : nmethod_data :=
  mk_nmethod_data slots (global_epoch s - 1) (global_epoch s - 1)
    Registered (next_lock s) (S (next_lock s)) false.

Definition demo_registered : zstate :=
  match register_nmethod 7 [slot_a; slot_b] empty_state with
  | Some s => s | None => empty_state
  end.

Definition demo_disarmed : zstate :=
  match disarm 7 demo_registered with Some s => s | None => demo_registered end.

Definition demo_unlinked : zstate :=
  unlink true (fun _ => false) (fun k => Nat.eqb k 7) demo_registered.

Definition demo_purged : zstate :=
  match purge_nmethod 7 demo_unlinked with Some s => s | None => demo_unlinked end.

(** An object only reachable through slot 0 of method 7. *)
Definition demo_phantom_state : zstate :=
  set_reach {[4096%Z := Unreachable]} demo_registered.

Definition demo_session : session * zstate :=
  match nmethods_do_begin Primary demo_registered with
  | Some r => r | None => (mk_session Primary 0, demo_registered)
  end.

Definition demo_ended : zstate :=
  match nmethods_do_end demo_session.1 demo_session.2 with
  | Some s => s | None => demo_session.2
  end.

(** [d'] is a later version of the metadata [d]: same locks, and Purged
    stays Purged. *)
Definition keeps (d d' : nmethod_data) : Prop :=
  nm_lock d' = nm_lock d /\ nm_ic_lock d' = nm_ic_lock d /\
  (nm_state d = Purged -> nm_state d' = Purged).

Definition registry_keeps (s s' : zstate) : Prop :=
  forall m d, registry s !! m = Some d ->
  exists d', registry s' !! m = Some d' /\ keeps d d'.

(** Method 7 is repaired, unlinked and purged. *)
Definition demo_teardown : list op :=
  [OAdvanceEpoch; OEntryBarrier 7;
   OUnlink true (fun _ => false) (fun k => Nat.eqb k 7);
   OPurge (fun _ => false)].

Definition demo_torn_down : zstate :=
  match run demo_teardown demo_registered with Some s => s | None => demo_registered end.

Definition demo_repaired_ops : list op :=
  [OAdvanceEpoch; OEntryBarrier 7; OUnlink true (fun _ => false) (fun k => Nat.eqb k 7)].

Definition demo_repaired : zstate :=
  match run demo_repaired_ops demo_registered with Some s => s | None => demo_registered end.

(** The scenario: A = 1 and B = 2 registered, a session opened, C = 3
    registered, the session visited by two claims of one method each and
    closed after a claim that finds nothing left, then a new session. *)
Definition scen_s0 : zstate :=
  match run [ORegister 1 [slot_a; slot_b]; ORegister 2 [slot_a]] empty_state with
  | Some s => s | None => empty_state
  end.

Definition scen_begin : session * zstate :=
  match nmethods_do_begin Primary scen_s0 with
  | Some r => r | None => (mk_session Primary 0, scen_s0)
  end.

Definition scen_ops1 : list op :=
  [ORegister 3 [slot_b]; ONMethodsDo scen_begin.1 0; ONMethodsDo scen_begin.1 0].

Definition scen_run1 : list (session * list nat) * zstate :=
  match run_visits scen_ops1 scen_begin.2 with Some r => r | None => ([], scen_begin.2) end.

Definition scen_s2 : zstate := scen_run1.2.

Definition scen_done : zstate :=
  match nmethods_do scen_begin.1 0 scen_s2 with Some r => r.2 | None => scen_s2 end.

Definition scen_s3 : zstate :=
  match nmethods_do_end scen_begin.1 scen_done with Some s => s | None => scen_done end.

Definition scen_begin' : session * zstate :=
  match nmethods_do_begin Primary scen_s3 with
  | Some r => r | None => (mk_session Primary 0, scen_s3)
  end.

Definition scen_ops3 : list op := [ONMethodsDo scen_begin'.1 4].

Definition scen_run3 : list (session * list nat) * zstate :=
  match run_visits scen_ops3 scen_begin'.2 with Some r => r | None => ([], scen_begin'.2) end.

Definition scen_done' : zstate :=
  match nmethods_do scen_begin'.1 0 scen_run3.2 with Some r => r.2 | None => scen_run3.2 end.

(** Helpers for stating properties of the diagnostic commands and tests. *)

(** Whether a character occurs in a string. *)
Fixpoint has_char (c : Ascii.ascii) (s : string) : bool :=
  match s with
  | EmptyString => false
  | String a rest => Ascii.eqb a c || has_char c rest
  end.

Definition dot : Ascii.ascii := Ascii.ascii_of_nat 46.

(** The text after the first entry of a comma-separated list. *)
Fixpoint comma_prefixed (texts : list string) : string :=
  match texts with
  | [] => EmptyString
  | t :: rest => String.append "," (String.append t (comma_prefixed rest))
  end.

(** The non-null entries of a storage array. *)
Definition somes (l : list OopStorageSetTest.ptr) : list OopStorageSetTest.ptr :=
  List.filter (fun p => match p with Some _ => true | None => false end) l.

Example format_int_205 : Adlc.format_int 205 = "205"%string.
Proof. reflexivity. Qed.

Example register_then_armed :
  option_map (is_armed 7) (register_nmethod 7 [slot_a; slot_b] empty_state) = Some (Some true).
Proof. reflexivity. Qed.

Example register_twice_fatal :
  (register_nmethod 7 [] empty_state ≫= register_nmethod 7 []) = None.
Proof. reflexivity. Qed.

Example repair_sample :
  (register_nmethod 7 [slot_a; slot_b] empty_state ≫= fun s =>
   nmethod_entry_barrier 7 (advance_epoch s) ≫= fun s' =>
   Some (is_armed 7 s', color 7 s', global_epoch s'))
  = Some (Some false, Some 2%Z, 2%Z).
Proof. reflexivity. Qed.

(** ** General facts about the model *)

Lemma set_registry_id (s : zstate) : set_registry (registry s) s = s.
Proof. by destruct s. Qed.

Lemma with_guard_twice (g : Z) (d : nmethod_data) : with_guard g (with_guard g d) = with_guard g d.
Proof. by destruct d. Qed.

Lemma lookup_nmethod_Some (m : nat) (s : zstate) (d : nmethod_data) :
  lookup_nmethod m s = Some d <-> registry s !! m = Some d /\ nm_state d <> Purged.
Proof.
  unfold lookup_nmethod. destruct (registry s !! m) as [d'|]; [|naive_solver].
  case_decide; split; intros H'; naive_solver.
Qed.

Lemma register_nmethod_Some (m : nat) (slots : list slot) (s s' : zstate) :
  register_nmethod m slots s = Some s' ->
  registry s !! m = None /\
  s' = set_next_lock (S (S (next_lock s)))
         (set_registry (<[m:=mk_nmethod_data slots (global_epoch s - 1) (global_epoch s - 1)
                              Registered (next_lock s) (S (next_lock s)) false]> (registry s)) s).
Proof.
  unfold register_nmethod. destruct (registry s !! m); intros H; inversion H; auto.
Qed.

Lemma set_guard_value_Some (m : nat) (v : Z) (s s' : zstate) :
  set_guard_value m v s = Some s' ->
  exists d, lookup_nmethod m s = Some d /\
    s' = set_registry (<[m:=with_guard v d]> (registry s)) s.
Proof.
  unfold set_guard_value. destruct (lookup_nmethod m s); intros H; inversion H; eauto.
Qed.

Lemma lookup_nmethod_insert (m : nat) (d : nmethod_data) (r : gmap nat nmethod_data) (s : zstate) :
  nm_state d <> Purged -> lookup_nmethod m (set_registry (<[m:=d]> r) s) = Some d.
Proof. intros Hn. apply lookup_nmethod_Some. simpl. rewrite lookup_insert_eq. auto. Qed.

Lemma register_nmethod_lookup (m : nat) (slots : list slot) (s s' : zstate) :
  register_nmethod m slots s = Some s' ->
  registry s' !! m = Some (fresh_data slots s) /\
  lookup_nmethod m s' = Some (fresh_data slots s) /\
  global_epoch s' = global_epoch s.
Proof.
  intros H. destruct (register_nmethod_Some _ _ _ _ H) as [_ Hs']; subst s'.
  simpl. rewrite lookup_insert_eq. split; [reflexivity|split; [|reflexivity]].
  apply lookup_nmethod_Some. simpl. rewrite lookup_insert_eq. split; [reflexivity|discriminate].
Qed.

(** ** C2: a freshly registered method is armed, Registered and stale *)

(** C2: right after [register_nmethod m] succeeds, [is_armed m] is true,
    the lifecycle state of [m] is Registered, and its color epoch is
    older than the global epoch. *)
Theorem register_nmethod_armed (m : nat) (slots : list slot) (s s' : zstate)
  (Hreg : register_nmethod m slots s = Some s') :
  is_armed m s' = Some true /\
  (exists d, registry s' !! m = Some d /\ nm_state d = Registered) /\
  (exists e, color m s' = Some e /\ (e < global_epoch s')%Z).
Proof.
  destruct (register_nmethod_Some _ _ _ _ Hreg) as [_ Hs']; subst s'.
  set (d := mk_nmethod_data slots (global_epoch s - 1) (global_epoch s - 1)
              Registered (next_lock s) (S (next_lock s)) false).
  assert (Hr : registry (set_next_lock (S (S (next_lock s)))
                 (set_registry (<[m:=d]> (registry s)) s)) !! m = Some d).
  { simpl. apply lookup_insert_eq. }
  assert (Hl : lookup_nmethod m (set_next_lock (S (S (next_lock s)))
                 (set_registry (<[m:=d]> (registry s)) s)) = Some d).
  { apply lookup_nmethod_Some. split; [exact Hr | discriminate]. }
  unfold is_armed, color. rewrite Hl.
  split; [|split; [eauto|]].
  - f_equal. unfold armed, disarmed_guard_value; simpl.
    apply negb_true_iff, Z.eqb_neq. lia.
  - exists (global_epoch s - 1)%Z. split; [reflexivity | simpl; lia].
Qed.

Lemma register_nmethod_armed_witness :
  register_nmethod 7 [slot_a; slot_b] empty_state = Some demo_registered /\
  is_armed 7 demo_registered = Some true.
Proof.
  split; [reflexivity|].
  apply (register_nmethod_armed 7 [slot_a; slot_b] empty_state demo_registered).
  reflexivity.
Defined.

(** ** C3: [disarm] is idempotent *)

(** C3: if [disarm m] succeeds on [s] giving [s1], a second [disarm m]
    succeeds on [s1] and returns [s1] unchanged: no guard value of any
    method changes; [m] is then disarmed. *)
Theorem disarm_idempotent (m : nat) (s s1 : zstate)
  (Hd : disarm m s = Some s1) :
  disarm m s1 = Some s1 /\
  is_armed m s1 = Some false.
Proof.
  unfold disarm in *. destruct (set_guard_value_Some _ _ _ _ Hd) as [d [Hl Hs1]]; subst s1.
  apply lookup_nmethod_Some in Hl. destruct Hl as [Hr Hnp].
  assert (Hl1 : lookup_nmethod m (set_registry (<[m:=with_guard (disarmed_guard_value s) d]>
                  (registry s)) s) = Some (with_guard (disarmed_guard_value s) d)).
  { apply lookup_nmethod_Some. simpl. rewrite lookup_insert_eq. auto. }
  split.
  - unfold set_guard_value. rewrite Hl1. f_equal.
    unfold disarmed_guard_value at 1; simpl. rewrite with_guard_twice.
    unfold disarmed_guard_value. simpl.
    rewrite insert_insert_eq. reflexivity.
  - unfold is_armed. rewrite Hl1. unfold armed, disarmed_guard_value; simpl.
    rewrite Z.eqb_refl. reflexivity.
Qed.

Lemma disarm_idempotent_witness :
  disarm 7 demo_registered = Some demo_disarmed /\ disarm 7 demo_disarmed = Some demo_disarmed.
Proof.
  split; [reflexivity|].
  apply (disarm_idempotent 7 demo_registered demo_disarmed). reflexivity.
Defined.

(** ** C4: a barrier trip repairs an armed method *)

(** C4: after [register_nmethod A slots], [A] is armed; once the global
    epoch is advanced, tripping [A]'s entry barrier succeeds, after which
    [A] is disarmed, [color A] is the current global epoch, every slot is
    re-colored to that epoch and the pending inline-cache patch is
    applied. *)
Theorem entry_barrier_repairs (A : nat) (slots : list slot) (s s1 : zstate)
  (Hreg : register_nmethod A slots s = Some s1) :
  is_armed A s1 = Some true /\
  exists s3 d3, nmethod_entry_barrier A (advance_epoch s1) = Some s3 /\
    registry s3 !! A = Some d3 /\
    is_armed A s3 = Some false /\
    color A s3 = Some (global_epoch s3) /\
    global_epoch s3 = (global_epoch s1 + 1)%Z /\
    nm_slots d3 = map (recolor_slot (global_epoch s3)) slots /\
    nm_ic_pending d3 = false.
Proof.
  destruct (register_nmethod_lookup _ _ _ _ Hreg) as [Hr [Hl Hg]].
  set (d := fresh_data slots s) in *.
  assert (Harmed1 : armed d s1 = true).
  { unfold armed, disarmed_guard_value. rewrite Hg. simpl.
    apply negb_true_iff, Z.eqb_neq. lia. }
  split. { unfold is_armed. rewrite Hl, Harmed1. reflexivity. }
  set (s2 := advance_epoch s1).
  assert (Hl2 : lookup_nmethod A s2 = Some d) by exact Hl.
  assert (Harmed2 : armed d s2 = true).
  { unfold armed, disarmed_guard_value, s2, advance_epoch. simpl. rewrite Hg.
    apply negb_true_iff, Z.eqb_neq. simpl. lia. }
  set (e := global_epoch s2).
  set (s2' := set_registry (<[A:=repair_data e d]> (registry s2)) s2).
  assert (Hl2' : lookup_nmethod A s2' = Some (repair_data e d)).
  { apply lookup_nmethod_insert. discriminate. }
  set (d3 := with_guard e (repair_data e d)).
  set (s3 := set_registry (<[A:=d3]> (registry s2')) s2').
  assert (Hl3 : lookup_nmethod A s3 = Some d3).
  { apply lookup_nmethod_insert. discriminate. }
  assert (He3 : global_epoch s3 = e) by reflexivity.
  exists s3, d3. split.
  { unfold nmethod_entry_barrier. rewrite Hl2, Harmed2.
    unfold lock_for_nmethod. rewrite Hl2. unfold disarm.
    change (set_guard_value A (disarmed_guard_value s2') s2' = Some s3).
    unfold set_guard_value. rewrite Hl2'. reflexivity. }
  split. { simpl. apply lookup_insert_eq. }
  split. { unfold is_armed. rewrite Hl3. unfold armed, disarmed_guard_value.
           rewrite He3. simpl. rewrite Z.eqb_refl. reflexivity. }
  split. { unfold color. rewrite Hl3. reflexivity. }
  split. { reflexivity. }
  split; reflexivity.
Qed.

Lemma entry_barrier_repairs_witness :
  register_nmethod 7 [slot_a; slot_b] empty_state = Some demo_registered /\
  is_armed 7 demo_registered = Some true.
Proof.
  split; [reflexivity|].
  apply (entry_barrier_repairs 7 [slot_a; slot_b] empty_state demo_registered).
  reflexivity.
Defined.

(** ** C5: purge contract *)

Lemma purge_nmethod_Some (m : nat) (s s1 : zstate) :
  purge_nmethod m s = Some s1 ->
  exists d, registry s !! m = Some d /\ nm_state d = Unlinked /\
    s1 = set_registry (<[m:=with_state Purged d]> (registry s)) s.
Proof.
  unfold purge_nmethod. destruct (registry s !! m) as [d|]; [|discriminate].
  case_decide; intros H'; inversion H'; eauto.
Qed.

(** C5: [purge_nmethod m] succeeds exactly when [m] is Unlinked, and then
    leaves [m] Purged; on a Registered method it is fatal; purging the
    same method a second time is fatal. *)
Theorem purge_nmethod_contract (m : nat) (s : zstate) :
  (is_Some (purge_nmethod m s) <->
     exists d, registry s !! m = Some d /\ nm_state d = Unlinked) /\
  (forall d, registry s !! m = Some d -> nm_state d = Registered ->
     purge_nmethod m s = None) /\
  (forall s1, purge_nmethod m s = Some s1 ->
     (exists d1, registry s1 !! m = Some d1 /\ nm_state d1 = Purged) /\
     purge_nmethod m s1 = None).
Proof.
  split; [|split].
  - split.
    + intros [s1 H]. destruct (purge_nmethod_Some _ _ _ H) as [d [Hr [Hst _]]]. eauto.
    + intros [d [Hr Hst]]. unfold purge_nmethod. rewrite Hr.
      case_decide; [eauto | contradiction].
  - intros d Hr Hst. unfold purge_nmethod. rewrite Hr.
    case_decide as Hu; [congruence | reflexivity].
  - intros s1 H. destruct (purge_nmethod_Some _ _ _ H) as [d [Hr [Hst ->]]].
    split.
    + exists (with_state Purged d). simpl. rewrite lookup_insert_eq. auto.
    + unfold purge_nmethod. simpl. rewrite lookup_insert_eq.
      case_decide as Hu; [discriminate | reflexivity].
Qed.

Lemma purge_nmethod_contract_witness :
  purge_nmethod 7 demo_registered = None /\
  purge_nmethod 7 demo_purged = None.
Proof.
  split.
  - apply (proj1 (proj2 (purge_nmethod_contract 7 demo_registered)) (fresh_data [slot_a; slot_b] empty_state));
      reflexivity.
  - apply (proj2 (proj2 (proj2 (purge_nmethod_contract 7 demo_unlinked)) demo_purged eq_refl)).
Defined.

(** ** C6: [oop_load_no_keepalive] is [oop_load] without keep-alive *)

(** C6: for every method and slot index, [oop_load_no_keepalive] gives the
    same outcome as [oop_load] with [keep_alive = false], and such a load
    leaves the whole state, reachability included, unchanged. *)
Theorem oop_load_no_keepalive_spec (m index : nat) (s : zstate) :
  oop_load_no_keepalive m index s = oop_load m index false s /\
  (forall r s', oop_load_no_keepalive m index s = Some (r, s') -> s' = s /\ reach s' = reach s).
Proof.
  split; [reflexivity|].
  intros r s'. unfold oop_load_no_keepalive, oop_load.
  destruct (lookup_nmethod m s) as [d|]; [|discriminate].
  destruct (nm_slots d !! index) as [sl|]; [|discriminate].
  intros H. inversion H; subst. auto.
Qed.

Lemma oop_load_no_keepalive_spec_witness :
  oop_load_no_keepalive 7 1 demo_registered = Some (8192%Z, demo_registered) /\
  demo_registered = demo_registered.
Proof.
  split; [reflexivity|].
  apply (proj2 (oop_load_no_keepalive_spec 7 1 demo_registered) 8192%Z demo_registered).
  reflexivity.
Defined.

(** ** C7: phantom loads never promote *)

(** C7: [oop_load_phantom] leaves the state, and so the reachability
    classification of every object, unchanged; when the slot exists it
    returns the reference stored there. *)
Theorem oop_load_phantom_no_promotion (m index : nat) (s : zstate) :
  (forall r s', oop_load_phantom m index s = Some (r, s') ->
     s' = s /\ forall a, reach s' !! a = reach s !! a) /\
  (forall d sl, lookup_nmethod m s = Some d -> nm_slots d !! index = Some sl ->
     oop_load_phantom m index s = Some (decode (slot_value sl), s)).
Proof.
  unfold oop_load_phantom. split.
  - intros r s'. destruct (lookup_nmethod m s) as [d|]; [|discriminate].
    destruct (nm_slots d !! index) as [sl|]; [|discriminate].
    intros H. inversion H; subst. auto.
  - intros d sl Hl Hs. rewrite Hl, Hs. reflexivity.
Qed.

Lemma oop_load_phantom_no_promotion_witness :
  oop_load_phantom 7 0 demo_phantom_state = Some (4096%Z, demo_phantom_state) /\
  reach demo_phantom_state !! 4096%Z = Some Unreachable.
Proof.
  split.
  - apply (proj2 (oop_load_phantom_no_promotion 7 0 demo_phantom_state)
             (fresh_data [slot_a; slot_b] empty_state) slot_a); reflexivity.
  - destruct (proj1 (oop_load_phantom_no_promotion 7 0 demo_phantom_state)
                4096%Z demo_phantom_state eq_refl) as [_ Hr].
    exact (eq_trans (Hr 4096%Z) eq_refl).
Defined.

(** For contrast, a keep-alive load of the same slot promotes the object. *)
Example keep_alive_load_promotes :
  option_map (fun rs => reach rs.2 !! 4096%Z) (oop_load 7 0 true demo_phantom_state)
  = Some (Some StronglyReachable).
Proof. reflexivity. Qed.

(** ** C8: session brackets *)

Lemma get_iter_set_iter (p q : partition) (it : iteration) (s : zstate) :
  get_iter q (set_iter p it s) = if decide (p = q) then it else get_iter q s.
Proof. destruct p, q; reflexivity. Qed.

Lemma get_iter_set_next_session (p : partition) (n : nat) (s : zstate) :
  get_iter p (set_next_session n s) = get_iter p s.
Proof. destruct p; reflexivity. Qed.

(** C8: [nmethods_do_begin p] is fatal exactly when a session is open on
    [p]; [nmethods_do_end sess] is fatal exactly when [sess] is not the
    session open on its partition; in particular a second end of the
    same session is fatal. *)
Theorem session_bracket_contract (p : partition) (sess : session) (s : zstate) :
  (nmethods_do_begin p s = None <-> get_iter p s <> None) /\
  (nmethods_do_end sess s = None <->
     ~ exists members, get_iter (session_partition sess) s = Some (session_id sess, members)) /\
  (forall s1, nmethods_do_end sess s = Some s1 -> nmethods_do_end sess s1 = None).
Proof.
  split; [|split].
  - unfold nmethods_do_begin. destruct (get_iter p s); split; congruence.
  - unfold nmethods_do_end. destruct (get_iter (session_partition sess) s) as [[sid mem]|].
    + case_decide as Heq; split.
      * discriminate.
      * intros Hn. exfalso. apply Hn. subst. eauto.
      * intros _ [mem' Hm]. inversion Hm. congruence.
      * reflexivity.
    + split; [intros _ [mem' Hm]; discriminate | reflexivity].
  - intros s1. unfold nmethods_do_end at 1.
    destruct (get_iter (session_partition sess) s) as [[sid mem]|]; [|discriminate].
    case_decide as Hsid; [|discriminate]. intros Hs1; inversion Hs1; subst.
    unfold nmethods_do_end. rewrite get_iter_set_iter. case_decide; [reflexivity|congruence].
Qed.

Lemma session_bracket_contract_witness :
  nmethods_do_end demo_session.1 demo_session.2 = Some demo_ended /\
  nmethods_do_end demo_session.1 demo_ended = None.
Proof.
  split; [reflexivity|].
  apply (proj2 (proj2 (session_bracket_contract Primary demo_session.1 demo_session.2))
           demo_ended).
  reflexivity.
Defined.

(** ** Preservation of per-method identity across operations *)

Lemma keeps_refl (d : nmethod_data) : keeps d d.
Proof. unfold keeps. auto. Qed.

Lemma keeps_trans (d1 d2 d3 : nmethod_data) : keeps d1 d2 -> keeps d2 d3 -> keeps d1 d3.
Proof. unfold keeps. intuition congruence. Qed.

Lemma registry_keeps_refl (s : zstate) : registry_keeps s s.
Proof. intros m d H. exists d. split; [exact H | apply keeps_refl]. Qed.

Lemma registry_keeps_same (s s' : zstate) : registry s' = registry s -> registry_keeps s s'.
Proof. intros Heq m d H. exists d. rewrite Heq. split; [exact H | apply keeps_refl]. Qed.

Lemma registry_keeps_trans (s1 s2 s3 : zstate) :
  registry_keeps s1 s2 -> registry_keeps s2 s3 -> registry_keeps s1 s3.
Proof.
  intros H12 H23 m d H. destruct (H12 m d H) as [d2 [H2 K2]].
  destruct (H23 m d2 H2) as [d3 [H3 K3]]. exists d3. split; [exact H3 | eapply keeps_trans; eauto].
Qed.

(** Overwriting the entry of [k] with a later version of it. *)
Lemma registry_keeps_insert (k : nat) (d0 d1 : nmethod_data) (s : zstate) :
  registry s !! k = Some d0 -> keeps d0 d1 ->
  registry_keeps s (set_registry (<[k:=d1]> (registry s)) s).
Proof.
  intros Hk K m d H. simpl. destruct (decide (k = m)) as [->|Hne].
  - rewrite lookup_insert_eq. exists d1. rewrite Hk in H. inversion H; subst. auto.
  - rewrite lookup_insert_ne by exact Hne. exists d. split; [exact H | apply keeps_refl].
Qed.

(** Rewriting every entry, each into a later version of itself. *)
Lemma registry_keeps_imap (f : nat -> nmethod_data -> nmethod_data) (s : zstate) :
  (forall k d, keeps d (f k d)) ->
  registry_keeps s (set_registry (map_imap (fun k d => Some (f k d)) (registry s)) s).
Proof.
  intros K m d H. simpl. rewrite map_lookup_imap, H. simpl. exists (f m d). auto.
Qed.

Lemma keeps_with_guard (v : Z) (d : nmethod_data) : keeps d (with_guard v d).
Proof. unfold keeps. simpl. auto. Qed.

Lemma keeps_with_state_purged (d : nmethod_data) : keeps d (with_state Purged d).
Proof. unfold keeps. simpl. auto. Qed.

Lemma keeps_repair (e : Z) (d : nmethod_data) : keeps d (repair_data e d).
Proof. unfold keeps. simpl. auto. Qed.

Lemma set_guard_value_keeps (m : nat) (v : Z) (s s' : zstate) :
  set_guard_value m v s = Some s' -> registry_keeps s s'.
Proof.
  intros H. destruct (set_guard_value_Some _ _ _ _ H) as [d [Hl ->]].
  apply lookup_nmethod_Some in Hl. destruct Hl as [Hr _].
  eapply registry_keeps_insert; [exact Hr | apply keeps_with_guard].
Qed.

Lemma registry_set_iter (p : partition) (it : iteration) (s : zstate) :
  registry (set_iter p it s) = registry s.
Proof. destruct p; reflexivity. Qed.

Lemma step_keeps (o : op) (s s' : zstate) :
  step o s = Some s' -> registry_keeps s s'.
Proof.
  destruct o as [m sl|m|m|m v|m| |p|sess k|sess|uo dc cu|os|m|m i ka|m i]; simpl; intros H.
  - (* register *)
    destruct (register_nmethod_Some _ _ _ _ H) as [Hn ->].
    intros k d Hk. simpl. exists d. split; [|apply keeps_refl].
    rewrite lookup_insert_ne; [exact Hk | congruence].
  - (* unregister *)
    unfold unregister_nmethod in H. destruct (registry s !! m) as [d|] eqn:Hr; [|discriminate].
    case_decide; [|discriminate]. inversion H; subst.
    eapply registry_keeps_insert; [exact Hr | apply keeps_with_state_purged].
  - (* disarm *) eapply set_guard_value_keeps; exact H.
  - (* set_guard_value *) eapply set_guard_value_keeps; exact H.
  - (* entry barrier *)
    unfold nmethod_entry_barrier in H. destruct (lookup_nmethod m s) as [d|] eqn:Hl; [|discriminate].
    destruct (armed d s).
    + destruct (lock_for_nmethod m s); [|discriminate].
      apply lookup_nmethod_Some in Hl. destruct Hl as [Hr _].
      eapply registry_keeps_trans.
      * eapply registry_keeps_insert; [exact Hr | apply (keeps_repair (global_epoch s))].
      * eapply set_guard_value_keeps. exact H.
    + inversion H; subst. apply registry_keeps_refl.
  - (* advance epoch *) inversion H; subst. apply registry_keeps_same. reflexivity.
  - (* begin *)
    unfold nmethods_do_begin in H. destruct (get_iter p s); [discriminate|].
    inversion H; subst. apply registry_keeps_same. simpl. apply registry_set_iter.
  - (* nmethods_do *)
    unfold nmethods_do in H. destruct (get_iter (session_partition sess) s) as [[sid mem]|];
      [|discriminate].
    case_decide; [|discriminate]. inversion H; subst.
    apply registry_keeps_same. apply registry_set_iter.
  - (* end *)
    unfold nmethods_do_end in H. destruct (get_iter (session_partition sess) s) as [[sid mem]|];
      [|discriminate].
    case_decide; [|discriminate]. inversion H; subst.
    apply registry_keeps_same. apply registry_set_iter.
  - (* unlink *)
    inversion H; subst. unfold unlink. apply registry_keeps_imap.
    intros k d. repeat case_decide; try destruct (_ || _); unfold keeps; simpl;
      intuition congruence.
  - (* purge *)
    inversion H; subst. unfold purge. apply registry_keeps_imap.
    intros k d. repeat case_decide; try destruct (os k); unfold keeps; simpl; intuition congruence.
  - (* purge_nmethod *)
    destruct (purge_nmethod_Some _ _ _ H) as [d [Hr [_ ->]]].
    eapply registry_keeps_insert; [exact Hr | apply keeps_with_state_purged].
  - (* load *)
    unfold oop_load in H. destruct (lookup_nmethod m s) as [d|]; [|discriminate].
    destruct (nm_slots d !! i) as [sl|]; [|discriminate].
    destruct ka; inversion H; subst; apply registry_keeps_same; reflexivity.
  - (* phantom load *)
    unfold oop_load_phantom in H. destruct (lookup_nmethod m s) as [d|]; [|discriminate].
    destruct (nm_slots d !! i) as [sl|]; [|discriminate].
    inversion H; subst. apply registry_keeps_refl.
Qed.

Lemma run_keeps (ops : list op) (s s' : zstate) :
  run ops s = Some s' -> registry_keeps s s'.
Proof.
  revert s. induction ops as [|o ops IH]; simpl; intros s H.
  - inversion H; subst. apply registry_keeps_refl.
  - destruct (step o s) as [s1|] eqn:Hs; [|discriminate].
    eapply registry_keeps_trans; [eapply step_keeps; exact Hs | eapply IH; exact H].
Qed.

(** ** C9: stable locks *)

Lemma lock_for_nmethod_Some (m : nat) (s : zstate) (l : nat) :
  lock_for_nmethod m s = Some l ->
  exists d, registry s !! m = Some d /\ nm_state d <> Purged /\ nm_lock d = l.
Proof.
  unfold lock_for_nmethod. destruct (lookup_nmethod m s) as [d|] eqn:Hl; [|discriminate].
  apply lookup_nmethod_Some in Hl. intros H. inversion H; subst. exists d. tauto.
Qed.

Lemma ic_lock_for_nmethod_Some (m : nat) (s : zstate) (l : nat) :
  ic_lock_for_nmethod m s = Some l ->
  exists d, registry s !! m = Some d /\ nm_state d <> Purged /\ nm_ic_lock d = l.
Proof.
  unfold ic_lock_for_nmethod. destruct (lookup_nmethod m s) as [d|] eqn:Hl; [|discriminate].
  apply lookup_nmethod_Some in Hl. intros H. inversion H; subst. exists d. tauto.
Qed.

(** C9: across any run of operations, a method that is still Registered or
    Unlinked at the end yields the same lock and the same inline-cache
    lock as before the run; a method that was Purged yields neither: both
    calls are fatal. *)
Theorem lock_for_nmethod_stable (ops : list op) (m : nat) (s s' : zstate)
  (Hrun : run ops s = Some s') :
  (forall l il, lock_for_nmethod m s = Some l -> ic_lock_for_nmethod m s = Some il ->
     (exists d', registry s' !! m = Some d' /\
                 (nm_state d' = Registered \/ nm_state d' = Unlinked)) ->
     lock_for_nmethod m s' = Some l /\ ic_lock_for_nmethod m s' = Some il) /\
  (forall d, registry s !! m = Some d -> nm_state d = Purged ->
     lock_for_nmethod m s' = None /\ ic_lock_for_nmethod m s' = None).
Proof.
  pose proof (run_keeps _ _ _ Hrun) as K.
  split.
  - intros l il Hl Hil [d' [Hd' Hst]].
    destruct (lock_for_nmethod_Some _ _ _ Hl) as [d [Hr [_ Hlk]]].
    destruct (ic_lock_for_nmethod_Some _ _ _ Hil) as [d0 [Hr0 [_ Hilk]]].
    rewrite Hr in Hr0. inversion Hr0; subst d0.
    destruct (K m d Hr) as [d'' [Hd'' [Kl [Kil _]]]].
    rewrite Hd' in Hd''. inversion Hd''; subst d''.
    assert (Hl' : lookup_nmethod m s' = Some d').
    { apply lookup_nmethod_Some. split; [exact Hd'|]. destruct Hst as [-> | ->]; discriminate. }
    unfold lock_for_nmethod, ic_lock_for_nmethod. rewrite Hl'. split; congruence.
  - intros d Hr Hp. destruct (K m d Hr) as [d' [Hd' [_ [_ Kp]]]].
    specialize (Kp Hp).
    unfold lock_for_nmethod, ic_lock_for_nmethod, lookup_nmethod. rewrite Hd'.
    case_decide; [split; reflexivity | contradiction].
Qed.

Lemma lock_for_nmethod_stable_witness :
  (lock_for_nmethod 7 demo_repaired = Some 0 /\ ic_lock_for_nmethod 7 demo_repaired = Some 1) /\
  (lock_for_nmethod 7 (advance_epoch demo_torn_down) = None /\
   ic_lock_for_nmethod 7 (advance_epoch demo_torn_down) = None).
Proof.
  split.
  - apply (proj1 (lock_for_nmethod_stable demo_repaired_ops 7 demo_registered demo_repaired
                    eq_refl) 0 1 eq_refl eq_refl).
    eexists. split; [reflexivity | right; reflexivity].
  - apply (proj2 (lock_for_nmethod_stable [OAdvanceEpoch] 7 demo_torn_down
                    (advance_epoch demo_torn_down) eq_refl)
             (with_state Purged (with_state Unlinked
                (with_guard 2 (repair_data 2 (fresh_data [slot_a; slot_b] empty_state)))))).
    + reflexivity.
    + reflexivity.
Defined.

(** ** Sessions are untouched by operations that do not bracket them *)

Lemma get_iter_set_registry (p : partition) (r : gmap nat nmethod_data) (s : zstate) :
  get_iter p (set_registry r s) = get_iter p s.
Proof. destruct p; reflexivity. Qed.

Lemma set_guard_value_iter (p : partition) (m : nat) (v : Z) (s s' : zstate) :
  set_guard_value m v s = Some s' -> get_iter p s' = get_iter p s.
Proof.
  intros H. destruct (set_guard_value_Some _ _ _ _ H) as [d [_ ->]]. apply get_iter_set_registry.
Qed.

Lemma brackets_begin (p q : partition) : brackets p (OBegin q) = false -> q <> p.
Proof. unfold brackets. destruct (decide (q = p)); congruence. Qed.

Lemma brackets_end (p : partition) (sess : session) :
  brackets p (OEnd sess) = false -> session_partition sess <> p.
Proof. unfold brackets. destruct (decide (session_partition sess = p)); congruence. Qed.

Lemma step_iter (p : partition) (o : op) (s s' : zstate) :
  brackets p o = false -> (match o with ONMethodsDo _ _ => False | _ => True end) ->
  step o s = Some s' -> get_iter p s' = get_iter p s.
Proof.
  destruct o as [m sl|m|m|m v|m| |q|sess k|sess|uo dc cu|os|m|m i ka|m i];
    intros Hb Hc H; simpl in H.
  - destruct (register_nmethod_Some _ _ _ _ H) as [_ ->]. destruct p; reflexivity.
  - unfold unregister_nmethod in H. destruct (registry s !! m); [|discriminate].
    case_decide; [|discriminate]. inversion H; subst. apply get_iter_set_registry.
  - eapply set_guard_value_iter; exact H.
  - eapply set_guard_value_iter; exact H.
  - unfold nmethod_entry_barrier in H. destruct (lookup_nmethod m s); [|discriminate].
    destruct (armed n s).
    + destruct (lock_for_nmethod m s); [|discriminate].
      rewrite (set_guard_value_iter _ _ _ _ _ H). apply get_iter_set_registry.
    + inversion H; subst; reflexivity.
  - inversion H; subst. destruct p; reflexivity.
  - unfold nmethods_do_begin in H. destruct (get_iter q s); [discriminate|].
    cbn [option_map snd] in H. injection H as Hs'. subst s'.
    rewrite get_iter_set_next_session, get_iter_set_iter.
    apply brackets_begin in Hb. rewrite decide_False by exact Hb. reflexivity.
  - contradiction.
  - unfold nmethods_do_end in H. destruct (get_iter (session_partition sess) s) as [[sid mem]|];
      [|discriminate].
    case_decide; [|discriminate]. inversion H; subst.
    rewrite get_iter_set_iter.
    apply brackets_end in Hb. rewrite decide_False by exact Hb. reflexivity.
  - inversion H; subst. apply get_iter_set_registry.
  - inversion H; subst. apply get_iter_set_registry.
  - destruct (purge_nmethod_Some _ _ _ H) as [d [_ [_ ->]]]. apply get_iter_set_registry.
  - unfold oop_load in H. destruct (lookup_nmethod m s) as [d|]; [|discriminate].
    destruct (nm_slots d !! i); [|discriminate].
    destruct ka; inversion H; subst; destruct p; reflexivity.
  - unfold oop_load_phantom in H. destruct (lookup_nmethod m s) as [d|]; [|discriminate].
    destruct (nm_slots d !! i); [|discriminate]. inversion H; subst; reflexivity.
Qed.

Lemma session_visits_app (sess : session) (tr1 tr2 : list (session * list nat)) :
  session_visits sess (tr1 ++ tr2) = session_visits sess tr1 ++ session_visits sess tr2.
Proof. unfold session_visits. rewrite List.filter_app, List.map_app, List.concat_app. reflexivity. Qed.

Lemma step_visits_iter (p : partition) (sid : nat) (rest : list nat) (o : op)
  (s s' : zstate) (tr : list (session * list nat)) :
  brackets p o = false -> get_iter p s = Some (sid, rest) ->
  step_visits o s = Some (tr, s') ->
  exists rest', get_iter p s' = Some (sid, rest') /\
    session_visits (mk_session p sid) tr ++ rest' = rest.
Proof.
  intros Hb Hit H. destruct o as [m sl|m|m|m v|m| |q|sess k|sess|uo dc cu|os|m|m i ka|m i];
    try (cbn [step_visits] in H;
         destruct (step _ s) as [s1|] eqn:Hs; [|discriminate];
         cbn [option_map] in H; injection H as <- <-;
         exists rest; split; [rewrite (step_iter p _ s s1 Hb I Hs); exact Hit|reflexivity]).
  cbn [step_visits] in H. unfold nmethods_do in H.
  destruct (get_iter (session_partition sess) s) as [[sid' un]|] eqn:Hg; [|discriminate].
  case_decide as Hsid; [|discriminate]. cbn [option_map fst snd] in H. injection H as <- <-.
  destruct (decide (session_partition sess = p)) as [Hp|Hp].
  - subst p. rewrite Hit in Hg. injection Hg as <- <-.
    exists (skipn (S k) rest). rewrite get_iter_set_iter, decide_True by reflexivity.
    split; [reflexivity|].
    assert (sess = mk_session (session_partition sess) sid) as Hs by (destruct sess; simpl in *; congruence).
    unfold session_visits. simpl. rewrite bool_decide_true by exact Hs. simpl.
    rewrite app_nil_r. apply firstn_skipn.
  - exists rest. rewrite get_iter_set_iter, decide_False by exact Hp. split; [exact Hit|].
    unfold session_visits. simpl. rewrite bool_decide_false; [reflexivity|].
    intros Hs. apply Hp. rewrite Hs. reflexivity.
Qed.

Lemma run_visits_iter (p : partition) (sid : nat) (ops : list op) :
  forallb (fun o => negb (brackets p o)) ops = true ->
  forall rest s s' tr, get_iter p s = Some (sid, rest) ->
  run_visits ops s = Some (tr, s') ->
  exists rest', get_iter p s' = Some (sid, rest') /\
    session_visits (mk_session p sid) tr ++ rest' = rest.
Proof.
  induction ops as [|o ops IH]; simpl; intros Hq rest s s' tr Hit H.
  - injection H as <- <-. exists rest. auto.
  - apply andb_true_iff in Hq as [Ho Hq]. apply negb_true_iff in Ho.
    destruct (step_visits o s) as [[tr1 s1]|] eqn:Hs; [|discriminate].
    destruct (run_visits ops s1) as [[tr2 s2]|] eqn:Hr; [|discriminate].
    injection H as <- <-.
    destruct (step_visits_iter p sid rest o s s1 tr1 Ho Hit Hs) as [rest1 [Hit1 E1]].
    destruct (IH Hq rest1 s1 s2 tr2 Hit1 Hr) as [rest2 [Hit2 E2]].
    exists rest2. split; [exact Hit2|].
    rewrite session_visits_app, <- app_assoc, E2. exact E1.
Qed.

Lemma elem_of_registered_ids (r : gmap nat nmethod_data) (k : nat) :
  k ∈ registered_ids r <-> exists d, r !! k = Some d /\ nm_state d = Registered.
Proof.
  unfold registered_ids. rewrite (elem_of_elements (C:=gset nat)), elem_of_dom.
  split.
  - intros [d Hd]. apply map_lookup_filter_Some in Hd. simpl in Hd. eauto.
  - intros [d [Hd Hst]]. exists d. apply map_lookup_filter_Some. simpl. auto.
Qed.

Lemma NoDup_registered_ids (r : gmap nat nmethod_data) : NoDup (registered_ids r).
Proof. unfold registered_ids. apply (NoDup_elements (C:=gset nat)). Qed.

Lemma nmethods_do_begin_Some (p : partition) (s s1 : zstate) (sess : session) :
  nmethods_do_begin p s = Some (sess, s1) ->
  session_partition sess = p /\ registry s1 = registry s /\
  get_iter p s1 = Some (session_id sess, registered_ids (registry s)).
Proof.
  unfold nmethods_do_begin. destruct (get_iter p s); [discriminate|].
  intros H. inversion H; subst. simpl. split; [reflexivity|split].
  - apply registry_set_iter.
  - rewrite get_iter_set_next_session, get_iter_set_iter. case_decide; [reflexivity|congruence].
Qed.

(** A session opened at [s0], claimed by workers over a run that neither
    opens nor closes a session on its partition, until a claim returns
    none: the methods visited over all claims are exactly the snapshot. *)
Lemma session_claims_complete (p : partition) (ops : list op) (k : nat)
  (s0 s1 s2 s2' : zstate) (sess : session) (tr : list (session * list nat)) :
  nmethods_do_begin p s0 = Some (sess, s1) ->
  run_visits ops s1 = Some (tr, s2) ->
  forallb (fun o => negb (brackets p o)) ops = true ->
  nmethods_do sess k s2 = Some ([], s2') ->
  session_visits sess tr = registered_ids (registry s0).
Proof.
  intros Hbegin Hops Hq Hdone.
  destruct (nmethods_do_begin_Some _ _ _ _ Hbegin) as [Hp [_ Hit1]].
  destruct sess as [sp sid]. simpl in Hp, Hit1. subst sp.
  destruct (run_visits_iter p sid ops Hq _ _ _ _ Hit1 Hops) as [rest [Hit2 E]].
  unfold nmethods_do in Hdone. simpl in Hdone. rewrite Hit2 in Hdone.
  rewrite decide_True in Hdone by reflexivity. injection Hdone as Hnil _.
  destruct rest as [|x rest]; [|discriminate].
  rewrite app_nil_r in E. exact E.
Qed.

(** ** C1: session membership *)

(** C1: take a session opened on partition [p] at [s0], worked on by the
    claims of a run [ops1] that neither opens nor closes a session on [p]
    and during which [m] (absent at [s0]) gets registered, until a claim
    finds no member left; the session is then closed.  Over all claims of
    the session, [m] is not visited; no method is visited twice; every
    method Registered at [s0] is visited, and only those.  In the next
    session opened on [p] while [m] is still Registered, worked on the same
    way, [m] is visited, and no method twice. *)
Theorem session_snapshot_visits (p : partition) (m : nat) (ops1 ops2 ops3 : list op)
  (s0 s1 s2 s2' s3 s4 s5 s6 s6' : zstate) (sess sess' : session)
  (tr tr' : list (session * list nat)) (k k' : nat)
  (Hbegin : nmethods_do_begin p s0 = Some (sess, s1))
  (Habsent : registry s0 !! m = None)
  (Hops1 : run_visits ops1 s1 = Some (tr, s2))
  (Hq1 : forallb (fun o => negb (brackets p o)) ops1 = true)
  (Hregistered : is_Some (registry s2 !! m))
  (Hdone : nmethods_do sess k s2 = Some ([], s2'))
  (Hend : nmethods_do_end sess s2' = Some s3)
  (Hops2 : run ops2 s3 = Some s4)
  (Hlive : exists d, registry s4 !! m = Some d /\ nm_state d = Registered)
  (Hbegin' : nmethods_do_begin p s4 = Some (sess', s5))
  (Hops3 : run_visits ops3 s5 = Some (tr', s6))
  (Hq3 : forallb (fun o => negb (brackets p o)) ops3 = true)
  (Hdone' : nmethods_do sess' k' s6 = Some ([], s6')) :
  (m ∉ session_visits sess tr) /\
  NoDup (session_visits sess tr) /\
  (forall n, n ∈ session_visits sess tr <->
     exists d, registry s0 !! n = Some d /\ nm_state d = Registered) /\
  m ∈ session_visits sess' tr' /\
  NoDup (session_visits sess' tr').
Proof.
  rewrite (session_claims_complete p ops1 k s0 s1 s2 s2' sess tr Hbegin Hops1 Hq1 Hdone).
  rewrite (session_claims_complete p ops3 k' s4 s5 s6 s6' sess' tr' Hbegin' Hops3 Hq3 Hdone').
  split; [|split; [|split; [|split]]].
  - rewrite elem_of_registered_ids. intros [d [Hd _]]. congruence.
  - apply NoDup_registered_ids.
  - intros n. apply elem_of_registered_ids.
  - apply elem_of_registered_ids. exact Hlive.
  - apply NoDup_registered_ids.
Qed.

(** Each claim takes members not handed out before: the two claims of the
    scenario's first session visit B and A once each, a third finds none,
    and the next session visits all three. *)
Example scenario_visits :
  scen_run1.1 = [(scen_begin.1, [2]); (scen_begin.1, [1])] /\
  option_map fst (nmethods_do scen_begin.1 0 scen_s2) = Some [] /\
  session_visits scen_begin'.1 scen_run3.1 = [2; 3; 1].
Proof. split; [|split]; reflexivity. Qed.

Example empty_session_visits_nothing :
  (nmethods_do_begin Secondary empty_state ≫= fun r => nmethods_do r.1 0 r.2) ≫= (fun v => Some v.1)
  = Some [].
Proof. reflexivity. Qed.

Lemma session_snapshot_visits_witness :
  (3 ∉ [2; 1]) /\ NoDup [2; 1] /\ 3 ∈ [2; 3; 1].
Proof.
  destruct (session_snapshot_visits Primary 3 scen_ops1 [] scen_ops3 scen_s0 scen_begin.2
              scen_s2 scen_done scen_s3 scen_s3 scen_begin'.2 scen_run3.2 scen_done'
              scen_begin.1 scen_begin'.1 scen_run1.1 scen_run3.1 0 0)
    as [H1 [H2 [_ [H3 _]]]].
  - reflexivity.
  - reflexivity.
  - reflexivity.
  - reflexivity.
  - eexists. reflexivity.
  - reflexivity.
  - reflexivity.
  - reflexivity.
  - eexists. split; reflexivity.
  - reflexivity.
  - reflexivity.
  - reflexivity.
  - reflexivity.
  - split; [exact H1|split; [exact H2|exact H3]].
Defined.

(** ** C10: the ADLC [assert] macro *)

Example adlc_assert_fails :
  Adlc.exec [Adlc.SAssert "archDesc.cpp" 42 (fun _ => 0%Z) "bad operand";
             Adlc.SAssign "x" (fun _ => 1%Z)]
    (Adlc.mk_process ∅ [] false)
  = Adlc.mk_process ∅ [String.append "assert fails archDesc.cpp 42: bad operand" Adlc.newline] true.
Proof. reflexivity. Qed.

Lemma exec_aborted (sts : list Adlc.stmt) (p : Adlc.process) :
  Adlc.aborted p = true -> Adlc.exec sts p = p.
Proof.
  revert p. induction sts as [|st sts IH]; simpl; intros p H; [reflexivity|].
  unfold Adlc.exec_stmt. rewrite H. apply IH. exact H.
Qed.

(** C10: in a running process, [assert(cond, msg)] at [file]:[line]
    aborts exactly when [cond] evaluates to 0 (false), after appending
    "assert fails <file> <line>: <msg>" and a newline to stderr; nothing
    after it runs then.  When [cond] is non-zero it has no effect at all and
    execution continues with the next statement. *)
Theorem adlc_assert_semantics (file : string) (line : nat) (cond : Adlc.expr) (msg : string)
  (rest : list Adlc.stmt) (p : Adlc.process)
  (Hrun : Adlc.aborted p = false) :
  (cond (Adlc.store p) = 0%Z ->
     Adlc.exec (Adlc.SAssert file line cond msg :: rest) p =
     Adlc.mk_process (Adlc.store p) (Adlc.stderr p ++ [Adlc.assert_message file line msg]) true) /\
  (cond (Adlc.store p) <> 0%Z ->
     Adlc.exec_stmt (Adlc.SAssert file line cond msg) p = p /\
     Adlc.exec (Adlc.SAssert file line cond msg :: rest) p = Adlc.exec rest p).
Proof.
  assert (E : Adlc.exec_stmt (Adlc.SAssert file line cond msg) p =
              if negb (Z.eqb (cond (Adlc.store p)) 0) then p
              else Adlc.abort (Adlc.fprintf_stderr (Adlc.assert_message file line msg) p)).
  { unfold Adlc.exec_stmt. rewrite Hrun. reflexivity. }
  simpl. rewrite E. split.
  - intros H0. rewrite H0. simpl. apply exec_aborted. reflexivity.
  - intros Hn. apply Z.eqb_neq in Hn. rewrite Hn. simpl. split; reflexivity.
Qed.

Lemma adlc_assert_semantics_witness :
  Adlc.exec [Adlc.SAssert "adlparse.cpp" 7 (fun st => default 0%Z (st !! "n"%string)) "n set"]
    (Adlc.mk_process {["n"%string := 0%Z]} [] false)
  = Adlc.mk_process {["n"%string := 0%Z]} [Adlc.assert_message "adlparse.cpp" 7 "n set"] true /\
  Adlc.exec [Adlc.SAssert "adlparse.cpp" 7 (fun st => default 0%Z (st !! "n"%string)) "n set"]
    (Adlc.mk_process {["n"%string := 5%Z]} [] false)
  = Adlc.exec [] (Adlc.mk_process {["n"%string := 5%Z]} [] false).
Proof.
  split.
  - etransitivity; [|reflexivity].
    exact (proj1 (adlc_assert_semantics "adlparse.cpp" 7
             (fun st => default 0%Z (st !! "n"%string)) "n set" []
             (Adlc.mk_process {["n"%string := 0%Z]} [] false) eq_refl) eq_refl).
  - apply (proj2 (adlc_assert_semantics "adlparse.cpp" 7
             (fun st => default 0%Z (st !! "n"%string)) "n set" []
             (Adlc.mk_process {["n"%string := 5%Z]} [] false) eq_refl)).
    discriminate.
Defined.

(** * Further properties of the code *)

(** ** The ADLC [max] macro *)

Example max_macro_sample :
  AdlcMax.max_macro (AdlcMax.post_incr "i") (AdlcMax.var "j")
    (<["i"%string:=5%Z]> (<["j"%string:=3%Z]> ∅))
  = (6%Z, <["i"%string:=7%Z]> (<["j"%string:=3%Z]> ∅)).
Proof. reflexivity. Qed.

(** For side-effect-free arguments, [max(a, b)] is the larger of the two
    values and leaves the store unchanged. *)
Theorem max_macro_pure (a b : AdlcMax.cexpr) (st : gmap string Z)
  (Ha : AdlcMax.pure a) (Hb : AdlcMax.pure b) :
  AdlcMax.max_macro a b st = (Z.max (fst (a st)) (fst (b st)), st).
Proof.
  unfold AdlcMax.max_macro.
  destruct (a st) as [va st1] eqn:Ea.
  assert (st1 = st) as -> by (pose proof (Ha st) as H; rewrite Ea in H; exact H).
  destruct (b st) as [vb st2] eqn:Eb.
  assert (st2 = st) as -> by (pose proof (Hb st) as H; rewrite Eb in H; exact H).
  simpl. destruct (Z.gtb va vb) eqn:Hc.
  - rewrite Ea. f_equal. apply Z.gtb_lt in Hc. lia.
  - rewrite Eb. f_equal. rewrite Z.gtb_ltb in Hc. apply Z.ltb_ge in Hc. lia.
Qed.

Lemma max_macro_pure_witness :
  AdlcMax.max_macro (AdlcMax.var "x") (AdlcMax.var "y") (<["x"%string:=2%Z]> ∅)
  = (2%Z, <["x"%string:=2%Z]> ∅).
Proof.
  apply (max_macro_pure (AdlcMax.var "x") (AdlcMax.var "y")); intros st; reflexivity.
Defined.

(** [max(i++, j)] with distinct variables: when [i > j] the increment is
    done twice and the result is the value of [i] after the first one;
    otherwise [i] is incremented once and the result is [j]. *)
Theorem max_macro_post_incr (i j : string) (st : gmap string Z) (Hij : i <> j) :
  let vi := default 0%Z (st !! i) in
  let vj := default 0%Z (st !! j) in
  AdlcMax.max_macro (AdlcMax.post_incr i) (AdlcMax.var j) st =
  if Z.gtb vi vj then ((vi + 1)%Z, <[i:=(vi + 2)%Z]> st)
  else (vj, <[i:=(vi + 1)%Z]> st).
Proof.
  intros vi vj. unfold AdlcMax.max_macro, AdlcMax.post_incr, AdlcMax.var. fold vi.
  rewrite lookup_insert_ne by congruence. fold vj.
  destruct (Z.gtb vi vj); [|reflexivity].
  rewrite lookup_insert_eq. simpl. rewrite insert_insert_eq.
  replace (vi + 1 + 1)%Z with (vi + 2)%Z by lia. reflexivity.
Qed.

Lemma max_macro_post_incr_witness :
  AdlcMax.max_macro (AdlcMax.post_incr "i") (AdlcMax.var "j")
    (<["i"%string:=5%Z]> (<["j"%string:=3%Z]> ∅))
  = (6%Z, <["i"%string:=7%Z]> (<["i"%string:=5%Z]> (<["j"%string:=3%Z]> ∅))).
Proof. exact (max_macro_post_incr "i" "j" _ ltac:(discriminate)). Defined.

(** ** Diagnostic commands *)

Lemma to_int_small (z : Z) : (0 <= z < 2147483648)%Z -> DCmd.to_int z = z.
Proof.
  intros Hz. unfold DCmd.to_int, DCmd.two32.
  rewrite Z.mod_small by lia. destruct (Z.ltb_spec z 2147483648); lia.
Qed.

Lemma to_int_minus_one : DCmd.to_int (-1) = (-1)%Z.
Proof. reflexivity. Qed.

Example heap_dump_sample :
  DCmd.heap_dump_execute 4 (DCmd.mk_heap_dump_args "h.hprof" false (Some 12%Z) false None)
  = (["Compression level out of range (1-9): 12"%string], None).
Proof. reflexivity. Qed.

(** A [-gz] level outside 1..9 only prints the range message: no dump. *)
Theorem heap_dump_level_out_of_range (d : Z) (a : DCmd.heap_dump_args) (l : Z)
  (Hgz : DCmd.hd_gzip a = Some l) (Hl : (l < 1 \/ 9 < l)%Z) :
  DCmd.heap_dump_execute d a =
  ([String.append "Compression level out of range (1-9): " (DCmd.format_jlong l)], None).
Proof.
  unfold DCmd.heap_dump_execute. rewrite Hgz.
  replace (Z.ltb l 1 || Z.ltb 9 l) with true; [reflexivity|].
  symmetry. apply orb_true_iff. destruct Hl; [left|right]; apply Z.ltb_lt; lia.
Qed.

Lemma heap_dump_level_out_of_range_witness :
  DCmd.heap_dump_execute 4 (DCmd.mk_heap_dump_args "h.hprof" true (Some 0%Z) true (Some 2%Z))
  = (["Compression level out of range (1-9): 0"%string], None).
Proof.
  exact (heap_dump_level_out_of_range 4
    (DCmd.mk_heap_dump_args "h.hprof" true (Some 0%Z) true (Some 2%Z)) 0 eq_refl ltac:(lia)).
Defined.

(** A negative [-parallel] value makes no dump, whatever the level. *)
Theorem heap_dump_negative_parallel (d : Z) (a : DCmd.heap_dump_args) (p : Z)
  (Hp : DCmd.hd_parallel a = Some p) (Hneg : (p < 0)%Z) :
  exists msg, DCmd.heap_dump_execute d a = ([msg], None).
Proof.
  unfold DCmd.heap_dump_execute. rewrite Hp.
  replace (Z.ltb p 0) with true by (symmetry; apply Z.ltb_lt; lia).
  destruct (DCmd.hd_gzip a) as [l|]; [destruct (Z.ltb l 1 || Z.ltb 9 l)|]; eauto.
Qed.

Lemma heap_dump_negative_parallel_witness :
  exists msg, DCmd.heap_dump_execute 4
    (DCmd.mk_heap_dump_args "h.hprof" false (Some 6%Z) false (Some (-3)%Z)) = ([msg], None).
Proof.
  exact (heap_dump_negative_parallel 4
    (DCmd.mk_heap_dump_args "h.hprof" false (Some 6%Z) false (Some (-3)%Z)) (-3) eq_refl ltac:(lia)).
Defined.

(** Every dump made: nothing printed, a GC requested exactly when [-all] is
    off, the file and overwrite flag passed on, level [-1] without [-gz] or
    the [-gz] level within 1..9, and [(uint)] of the default thread count or
    of [max(1, parallel)] for a non-negative [-parallel]; so a [-parallel]
    of [2^32] asks for 0 threads. *)
Theorem heap_dump_made (d : Z) (a : DCmd.heap_dump_args) out gc file level ow par
  (H : DCmd.heap_dump_execute d a = (out, Some (DCmd.HeapDump gc file level ow par))) :
  out = [] /\ gc = negb (DCmd.hd_all a) /\ file = DCmd.hd_filename a /\ ow = DCmd.hd_overwrite a /\
  ((DCmd.hd_gzip a = None /\ level = (-1)%Z) \/
   (DCmd.hd_gzip a = Some level /\ (1 <= level <= 9)%Z)) /\
  match DCmd.hd_parallel a with
  | None => par = DCmd.to_uint d
  | Some p => (0 <= p)%Z /\ par = DCmd.to_uint (Z.max 1 p)
  end.
Proof.
  unfold DCmd.heap_dump_execute in H.
  destruct (DCmd.hd_gzip a) as [l|] eqn:Eg.
  - destruct (Z.ltb l 1 || Z.ltb 9 l) eqn:El; [discriminate|].
    apply orb_false_iff in El as [E1 E2]. apply Z.ltb_ge in E1, E2.
    destruct (DCmd.hd_parallel a) as [p|] eqn:Ep.
    + destruct (Z.ltb_spec p 0); [discriminate|].
      destruct (Z.eqb_spec p 0) as [->|Hp0]; inversion H; subst;
        rewrite to_int_small by lia; repeat split; auto; try lia.
      * f_equal. lia.
    + inversion H; subst. rewrite to_int_small by lia. repeat split; auto; lia.
  - destruct (DCmd.hd_parallel a) as [p|] eqn:Ep.
    + destruct (Z.ltb_spec p 0); [discriminate|].
      destruct (Z.eqb_spec p 0) as [->|Hp0]; inversion H; subst;
        repeat split; auto; try lia.
      f_equal. lia.
    + inversion H; subst. repeat split; auto.
Qed.

Lemma heap_dump_made_witness :
  DCmd.heap_dump_execute 4
    (DCmd.mk_heap_dump_args "h.hprof" false None true (Some 4294967296%Z))
  = ([], Some (DCmd.HeapDump true "h.hprof" (-1) true 0)) /\
  (0 <= 4294967296 /\ 0 = DCmd.to_uint (Z.max 1 4294967296))%Z.
Proof.
  split; [reflexivity|].
  exact (proj2 (proj2 (proj2 (proj2 (proj2 (heap_dump_made 4
    (DCmd.mk_heap_dump_args "h.hprof" false None true (Some 4294967296%Z))
    [] true "h.hprof" (-1) true 0 eq_refl)))))).
Defined.

Example class_histogram_sample :
  DCmd.class_histogram_execute 2 false 0 = ([], Some (DCmd.HeapInspection true 1)).
Proof. reflexivity. Qed.

(** [GC.class_histogram]: a negative [-parallel] only prints a message; any
    other value runs the inspection, with a full GC exactly when [-all] is
    off, with at least one thread for [0] (whatever the processor count),
    and with [(uint)num] threads otherwise, which is 0 for [2^32]. *)
Theorem class_histogram_threads (procs : Z) (all : bool) (num : Z) :
  ((num < 0)%Z ->
   DCmd.class_histogram_execute procs all num =
   ([String.append "Parallel thread number out of range (>=0): " (DCmd.format_jlong num)], None)) /\
  ((0 <= num)%Z ->
   exists t, DCmd.class_histogram_execute procs all num = ([], Some (DCmd.HeapInspection (negb all) t)) /\
   (num = 0%Z -> (1 <= t < 536870912)%Z) /\
   (num <> 0%Z -> t = Z.modulo num 4294967296)).
Proof.
  unfold DCmd.class_histogram_execute. split.
  - intros Hn. destruct (Z.ltb_spec num 0); [reflexivity|lia].
  - intros Hn. destruct (Z.ltb_spec num 0); [lia|].
    eexists; split; [reflexivity|]. split.
    + intros ->. simpl. unfold DCmd.default_histogram_threads, DCmd.to_uint, DCmd.two32.
      set (x := ((procs mod 4294967296 * 3) mod 4294967296)%Z).
      assert (0 <= x < 4294967296)%Z by (apply Z.mod_pos_bound; lia).
      assert (0 <= x / 8 < 536870912)%Z by (split; [apply Z.div_pos|apply Z.div_lt_upper_bound]; lia).
      rewrite Z.mod_small; lia.
    + intros Hn0. apply Z.eqb_neq in Hn0. rewrite Hn0. reflexivity.
Qed.

Lemma class_histogram_threads_witness :
  (exists t, DCmd.class_histogram_execute 8 true 0 = ([], Some (DCmd.HeapInspection false t)) /\
             (1 <= t < 536870912)%Z) /\
  DCmd.class_histogram_execute 8 true 4294967296 = ([], Some (DCmd.HeapInspection false 0)).
Proof.
  split.
  - destruct (proj2 (class_histogram_threads 8 true 0) ltac:(lia)) as (t & H1 & H2 & _).
    exists t. split; [exact H1|apply H2; reflexivity].
  - destruct (proj2 (class_histogram_threads 8 true 4294967296) ltac:(lia)) as (t & H1 & _ & H3).
    rewrite H1, (H3 ltac:(discriminate)). reflexivity.
Defined.

Example event_log_sample :
  DCmd.event_log_execute None 4294967295 =
  ([String.append "Invalid max option: "
      (String.append DCmd.dquote (String.append "-1" (String.append DCmd.dquote ".")))], None).
Proof. reflexivity. Qed.

(** [VM.events]: the [max] value is cast to [int]; the command prints
    events exactly when the value modulo [2^32] is below [2^31], with that
    residue as the bound (so [2^32] prints all events), and otherwise only
    prints a message. *)
Theorem event_log_int_cast (log : option string) (v : Z) :
  (Z.modulo v 4294967296 < 2147483648 ->
   DCmd.event_log_execute log v =
   ([], Some (match log with
              | Some n => DCmd.PrintOne n (Z.modulo v 4294967296)
              | None => DCmd.PrintAll (Z.modulo v 4294967296) end)))%Z /\
  (2147483648 <= Z.modulo v 4294967296 ->
   exists msg, DCmd.event_log_execute log v = ([msg], None))%Z.
Proof.
  unfold DCmd.event_log_execute, DCmd.to_int, DCmd.two32.
  pose proof (Z.mod_pos_bound v 4294967296 ltac:(lia)).
  split; intros Hv.
  - destruct (Z.ltb_spec (v mod 4294967296) 2147483648); [|lia].
    destruct (Z.ltb_spec (v mod 4294967296) 0); [lia|]. destruct log; reflexivity.
  - destruct (Z.ltb_spec (v mod 4294967296) 2147483648); [lia|].
    destruct (Z.ltb_spec (v mod 4294967296 - 4294967296) 0); [eauto|lia].
Qed.

Lemma event_log_int_cast_witness :
  DCmd.event_log_execute None 4294967296 = ([], Some (DCmd.PrintAll 0)) /\
  exists msg, DCmd.event_log_execute (Some "gc"%string) 2147483648 = ([msg], None).
Proof.
  split.
  - exact (proj1 (event_log_int_cast None 4294967296) ltac:(reflexivity)).
  - exact (proj2 (event_log_int_cast (Some "gc"%string) 2147483648) ltac:(discriminate)).
Defined.

Lemma strrchr_none (c : Ascii.ascii) (s : string) :
  has_char c s = false -> DCmd.strrchr s c = None.
Proof.
  induction s as [|a s IH]; simpl; [reflexivity|].
  intros H. apply orb_false_iff in H as [H1 H2]. rewrite IH, H1 by exact H2. reflexivity.
Qed.

Lemma strrchr_last (c : Ascii.ascii) (pre post : string) :
  has_char c post = false ->
  DCmd.strrchr (String.append pre (String c post)) c = Some (String c post).
Proof.
  intros Hp. induction pre as [|a pre IH]; simpl.
  - rewrite strrchr_none by exact Hp. rewrite Ascii.eqb_refl. reflexivity.
  - rewrite IH. reflexivity.
Qed.

Lemma strncmp_eq_prefix (s1 s2 : string) :
  DCmd.strncmp_eq (String.length s1) s1 s2 = String.prefix s1 s2.
Proof.
  revert s2. induction s1 as [|a s1 IH]; intros [|b s2]; simpl; try reflexivity.
  rewrite IH. destruct (Ascii.eqb_spec a b), (Ascii.ascii_dec a b); simpl; congruence.
Qed.

Lemma string_length_append (s1 s2 : string) :
  String.length (String.append s1 s2) = (String.length s1 + String.length s2)%nat.
Proof. induction s1 as [|a s1 IH]; simpl; [reflexivity|]. rewrite IH. reflexivity. Qed.

Lemma substring_whole (s : string) : String.substring 0 (String.length s) s = s.
Proof. induction s; simpl; congruence. Qed.

Example is_java_agent_samples :
  DCmd.is_java_agent "lib/agent.jar" = true /\ DCmd.is_java_agent "agent.jar.so" = false /\
  DCmd.is_java_agent "agent.jarx" = true /\ DCmd.is_java_agent "libagent" = false.
Proof. repeat split. Qed.

(** The Java-agent test looks only at the text after the last dot: it
    holds exactly when that text starts with [jar] (so [a.jar.so] is not an
    agent and [a.jarx] is). *)
Theorem is_java_agent_last_dot (pre post : string) (Hpost : has_char dot post = false) :
  DCmd.is_java_agent (String.append pre (String dot post)) = String.prefix "jar" post.
Proof.
  unfold DCmd.is_java_agent. fold dot. rewrite strrchr_last by exact Hpost.
  change 4%nat with (String.length ".jar").
  rewrite strncmp_eq_prefix. reflexivity.
Qed.

Lemma is_java_agent_last_dot_witness :
  DCmd.is_java_agent "a.jar.so" = false /\ DCmd.is_java_agent "a.jarx" = true.
Proof.
  split.
  - exact (is_java_agent_last_dot "a.jar" "so" eq_refl).
  - exact (is_java_agent_last_dot "a" "jarx" eq_refl).
Defined.

(** A library path without a dot is never a Java agent. *)
Theorem is_java_agent_no_dot (lib : string) (Hlib : has_char dot lib = false) :
  DCmd.is_java_agent lib = false.
Proof. unfold DCmd.is_java_agent. fold dot. rewrite strrchr_none by exact Hlib. reflexivity. Qed.

Lemma is_java_agent_no_dot_witness : DCmd.is_java_agent "libjar" = false.
Proof. exact (is_java_agent_no_dot "libjar" eq_refl). Defined.

(** A Java agent with an option is loaded through [instrument] with the
    option string [lib=option] in full: the buffer of [opt_len] bytes never
    truncates it. *)
Theorem jvmti_agent_option_not_truncated (lib opt : string)
  (Hj : DCmd.is_java_agent lib = true)
  (Hlen : (String.length lib + String.length opt + 2 <= 4096)%nat) :
  DCmd.jvmti_agent_load_execute true (Some lib) (Some opt) =
  ([], Some (DCmd.LoadAgent "instrument" false
               (Some (String.append lib (String.append "=" opt))))).
Proof.
  unfold DCmd.jvmti_agent_load_execute. rewrite Hj.
  destruct (Nat.ltb_spec 4096 (String.length lib + String.length opt + 2)); [lia|].
  simpl negb. cbv iota. unfold DCmd.snprintf_key_value.
  replace (String.length lib + String.length opt + 2 - 1)%nat
    with (String.length (String.append lib (String.append "=" opt))).
  - rewrite substring_whole. reflexivity.
  - rewrite !string_length_append. simpl. lia.
Qed.

Lemma jvmti_agent_option_not_truncated_witness :
  DCmd.jvmti_agent_load_execute true (Some "a.jar"%string) (Some "k=v"%string) =
  ([], Some (DCmd.LoadAgent "instrument" false (Some "a.jar=k=v"%string))).
Proof. exact (jvmti_agent_option_not_truncated "a.jar" "k=v" eq_refl ltac:(simpl; lia)). Defined.

(** [JVMTI.agent_load] loads no agent exactly when the library path is
    missing, or for a Java agent with an option when [lib=option] needs
    more than 4096 bytes or the buffer cannot be allocated. *)
Theorem jvmti_agent_not_loaded (malloc_ok : bool) (lp ao : option string) :
  snd (DCmd.jvmti_agent_load_execute malloc_ok lp ao) = None <->
  lp = None \/
  exists lib opt, lp = Some lib /\ ao = Some opt /\ DCmd.is_java_agent lib = true /\
    ((4096 < String.length lib + String.length opt + 2)%nat \/ malloc_ok = false).
Proof.
  unfold DCmd.jvmti_agent_load_execute. destruct lp as [lib|].
  2:{ split; auto. }
  destruct (DCmd.is_java_agent lib) eqn:Hj.
  - destruct ao as [opt|].
    + destruct (Nat.ltb_spec 4096 (String.length lib + String.length opt + 2)).
      * split; [intros _; right; eauto 10|reflexivity].
      * destruct malloc_ok; simpl.
        -- split; [discriminate|]. intros [?|(l & o & Hl & Ho & _ & [?|?])];
             [discriminate|injection Hl as <-; injection Ho as <-; lia|discriminate].
        -- split; [intros _; right; eauto 10|reflexivity].
    + simpl. split; [discriminate|]. intros [?|(l & o & _ & ? & _)]; discriminate.
  - simpl. split; [discriminate|].
    intros [?|(l & o & Hl & _ & Hj' & _)]; [discriminate|]. injection Hl as <-. congruence.
Qed.

(** ** [JMXStartRemoteDCmd::execute]: the option string *)

Lemma string_append_cons (a : Ascii.ascii) (s1 s2 : string) :
  String.append (String a s1) s2 = String a (String.append s1 s2).
Proof. reflexivity. Qed.

Lemma string_append_assoc (s1 s2 s3 : string) :
  String.append s1 (String.append s2 s3) = String.append (String.append s1 s2) s3.
Proof.
  induction s1 as [|a s1 IH]; [reflexivity|].
  rewrite !string_append_cons, IH. reflexivity.
Qed.

Lemma string_append_empty (s : string) : String.append s EmptyString = s.
Proof. induction s as [|a s IH]; [reflexivity|]. rewrite string_append_cons, IH. reflexivity. Qed.

Lemma concat_comma_cons (t : string) (rest : list string) :
  String.concat "," (t :: rest) = String.append t (comma_prefixed rest).
Proof.
  revert t. induction rest as [|u rest IH]; intros t.
  - simpl. rewrite string_append_empty. reflexivity.
  - change (String.concat "," (t :: u :: rest))
      with (String.append t (String.append "," (String.concat "," (u :: rest)))).
    rewrite IH. reflexivity.
Qed.

Lemma put_option_after_comma (args : list DCmd.jmx_arg) (o : string) :
  fold_left DCmd.put_option args (o, ","%string) =
  (String.append o (comma_prefixed
     (map (DCmd.put_option_text EmptyString) (List.filter DCmd.arg_is_set args))), ","%string).
Proof.
  revert o. induction args as [|a args IH]; intros o; simpl.
  - rewrite string_append_empty. reflexivity.
  - destruct (DCmd.arg_is_set a); simpl; rewrite IH; [|reflexivity].
    rewrite <- string_append_assoc. reflexivity.
Qed.

Lemma put_option_before_comma (args : list DCmd.jmx_arg) (o : string) :
  fst (fold_left DCmd.put_option args (o, EmptyString)) =
  String.append o (String.concat ","
     (map (DCmd.put_option_text EmptyString) (List.filter DCmd.arg_is_set args))).
Proof.
  revert o. induction args as [|a args IH]; intros o; simpl.
  - rewrite string_append_empty. reflexivity.
  - destruct (DCmd.arg_is_set a); cbn -[String.concat]; [|apply IH].
    rewrite put_option_after_comma, concat_comma_cons. simpl.
    rewrite <- string_append_assoc. reflexivity.
Qed.

Example jmx_options_sample :
  DCmd.jmx_options [DCmd.StrArg "config.file" None; DCmd.IntArg "jmxremote.port" (Some 7091%Z);
                    DCmd.StrArg "jmxremote.ssl" (Some "false"%string)] =
  "com.sun.management.jmxremote.port=7091,com.sun.management.jmxremote.ssl=false"%string.
Proof. reflexivity. Qed.

(** The [PUT_OPTION] sequence builds the comma-separated list of
    [com.sun.management.<name>=<value>] for the options that are set, in
    order, with no leading, trailing or doubled comma. *)
Theorem jmx_options_join (args : list DCmd.jmx_arg) :
  DCmd.jmx_options args =
  String.concat "," (map (DCmd.put_option_text EmptyString) (List.filter DCmd.arg_is_set args)).
Proof. unfold DCmd.jmx_options. rewrite put_option_before_comma. reflexivity. Qed.

(** ** [DumpSharedArchiveDCmd::execute] *)

Example cds_sample :
  DCmd.dump_shared_archive_execute true true true true (Some "top.jsa"%string)
    "dynamic_dump" (Some "top.jsa"%string)
  = (["Dynamic dump: "%string; "top.jsa"%string],
     Some (DCmd.DumpSharedArchive false (Some "top.jsa"%string))).
Proof. reflexivity. Qed.

Lemma dump_shared_archive_call_Some (fok cok : bool) (result : option string)
  (printed : list string) (is_static st : bool) (file file' : option string) :
  snd (DCmd.dump_shared_archive_call fok cok result printed is_static file) =
    Some (DCmd.DumpSharedArchive st file') <->
  file' = file /\ (file = None \/ fok = true) /\ cok = true /\ st = is_static.
Proof.
  unfold DCmd.dump_shared_archive_call.
  destruct file as [f|], fok, cok; simpl; split;
    try (intros H; injection H as <- <-; intuition congruence);
    try discriminate; intuition (subst; try congruence; reflexivity).
Qed.

(** [VM.cds] calls [CDS.dumpSharedArchive] exactly for [static_dump] (a
    static dump) or for [dynamic_dump] (a dynamic one) when the base archive
    is in use and [RecordDynamicDumpInfo] is on, provided the file name
    string (when a file is given) and the [CDS] class are obtained without
    an exception; it always passes the file name given. *)
Theorem cds_dump_called (using_archive record fok cok : bool) (result : option string)
  (scmd : string) (filename : option string) (st : bool) (file : option string) :
  snd (DCmd.dump_shared_archive_execute using_archive record fok cok result scmd filename) =
    Some (DCmd.DumpSharedArchive st file) <->
  file = filename /\ (filename = None \/ fok = true) /\ cok = true /\
  ((scmd = "static_dump"%string /\ st = true) \/
   (scmd = "dynamic_dump"%string /\ st = false /\ using_archive = true /\ record = true)).
Proof.
  unfold DCmd.dump_shared_archive_execute.
  destruct (String.eqb_spec scmd "static_dump") as [->|Hs].
  - rewrite dump_shared_archive_call_Some. split.
    + intros (-> & Hf & Hc & ->). repeat split; auto.
    + intros (-> & Hf & Hc & [[_ ->]|[H _]]); [repeat split; auto|discriminate].
  - destruct (String.eqb_spec scmd "dynamic_dump") as [->|Hd].
    + destruct using_archive, record; simpl;
        try (split; [discriminate|]; intros (_ & _ & _ & [[H _]|(_ & _ & Hu & Hr)]); discriminate).
      rewrite dump_shared_archive_call_Some. split.
      * intros (-> & Hf & Hc & ->). repeat split; auto.
      * intros (-> & Hf & Hc & [[H _]|(_ & -> & _ & _)]); [discriminate|repeat split; auto].
    + simpl. split; [discriminate|]. intros (_ & _ & _ & [[H _]|[H _]]); congruence.
Qed.

Lemma cds_dump_called_witness :
  snd (DCmd.dump_shared_archive_execute true true false true None "static_dump" (Some "a.jsa"%string))
  = None.
Proof.
  destruct (snd (DCmd.dump_shared_archive_execute true true false true None "static_dump"
                   (Some "a.jsa"%string))) as [[st f]|] eqn:E; [|reflexivity].
  apply (cds_dump_called true true false true None "static_dump" (Some "a.jsa"%string) st f) in E.
  destruct E as (_ & [H|H] & _); discriminate.
Defined.

(** ** [OopStorageSetTest]: [find_storage] and [check_iteration] *)

Section StorageSetTest.
Import OopStorageSetTest.

Lemma find_storage_from_shift (i : nat) (s : ptr) (l : list ptr) :
  find_storage_from i s l = (i + find_storage_from 0 s l)%nat.
Proof.
  revert i. induction l as [|x l IH]; intros i; simpl; [lia|].
  case_decide; [lia|]. rewrite (IH (S i)), (IH 1%nat). lia.
Qed.

Lemma find_storage_cons (s x : ptr) (l : list ptr) :
  find_storage s (x :: l) = if decide (s = x) then 0%nat else S (find_storage s l).
Proof.
  unfold find_storage. simpl. case_decide; [reflexivity|].
  rewrite find_storage_from_shift. reflexivity.
Qed.

Example find_storage_sample :
  find_storage (Some 2) [Some 5; Some 2; Some 2] = 1%nat /\ find_storage (Some 7) [Some 5; Some 2] = 2%nat.
Proof. split; reflexivity. Qed.

(** [find_storage] returns at most [count]; it returns less exactly when
    [s] is among the storages, and then the index of its first occurrence. *)
Theorem find_storage_spec (s : ptr) (l : list ptr) :
  (find_storage s l <= length l)%nat /\
  ((find_storage s l < length l)%nat <-> s ∈ l) /\
  ((find_storage s l < length l)%nat ->
   l !! find_storage s l = Some s /\
   forall j, (j < find_storage s l)%nat -> l !! j <> Some s).
Proof.
  induction l as [|x l IH]; rewrite ?find_storage_cons.
  - unfold find_storage. simpl. split; [lia|]. split; [|lia].
    split; [lia|]. intros H. apply elem_of_nil in H. contradiction.
  - destruct IH as (IH1 & IH2 & IH3). simpl length. case_decide as Hx.
    + subst. split; [lia|]. split; [split; [intros _; apply elem_of_cons; left; reflexivity|lia]|].
      intros _. split; [reflexivity|]. intros j Hj. lia.
    + split; [lia|]. split.
      * rewrite elem_of_cons. split; [intros H; right; apply IH2; lia|].
        intros [H|H]; [contradiction|]. apply IH2 in H. lia.
      * intros H. destruct (IH3 ltac:(lia)) as [Hl Hj]. split; [exact Hl|].
        intros [|j] Hj'; simpl; [congruence|]. apply Hj. lia.
Qed.

Lemma find_storage_spec_witness :
  [Some 5; Some 2; Some 2] !! 1%nat = Some (Some 2) /\ [Some 5; Some 2; Some 2] !! 0%nat <> Some (Some 2).
Proof.
  destruct (proj2 (proj2 (find_storage_spec (Some 2) [Some 5; Some 2; Some 2])) ltac:(vm_compute; lia))
    as [H1 H2].
  split; [exact H1|exact (H2 0%nat ltac:(vm_compute; lia))].
Defined.

Lemma find_storage_lookup (s : ptr) (l : list ptr) :
  (find_storage s l < length l)%nat -> l !! find_storage s l = Some s.
Proof.
  revert s. induction l as [|x l IH]; intros s; rewrite ?find_storage_cons; simpl; [lia|].
  case_decide as Hx; [subst; reflexivity|]. intros H. apply IH. lia.
Qed.

Lemma find_storage_missing (s : ptr) (l : list ptr) :
  ~ (find_storage s l < length l)%nat -> ~ In s l.
Proof.
  revert s. induction l as [|x l IH]; intros s; rewrite ?find_storage_cons; simpl; [auto|].
  case_decide as Hx; [lia|]. intros H [Hx'|Hin]; [congruence|]. apply (IH s); [lia|exact Hin].
Qed.

Lemma somes_clear (l : list ptr) (i : nat) (x : nat) :
  l !! i = Some (Some x) -> somes l ≡ₚ Some x :: somes (<[i:=None]> l).
Proof.
  revert i. induction l as [|y l IH]; intros [|i] H; simpl in *; try discriminate.
  - injection H as ->. reflexivity.
  - destruct y as [y|].
    + rewrite (IH i H). apply perm_swap.
    + exact (IH i H).
Qed.

Lemma somes_length_le (l : list ptr) : (length (somes l) <= length l)%nat.
Proof. induction l as [|[]]; simpl; lia. Qed.

Lemma somes_full (l : list ptr) : length (somes l) = length l -> Forall is_Some l.
Proof.
  induction l as [|[x|] l IH]; simpl; intros H.
  - constructor.
  - constructor; [eexists; reflexivity|apply IH; lia].
  - pose proof (somes_length_le l). lia.
Qed.

Lemma somes_all (l : list ptr) : Forall is_Some l -> somes l = l.
Proof. induction 1 as [|[x|] l Hx _ IH]; simpl; [reflexivity|congruence|destruct Hx; discriminate]. Qed.

Lemma somes_nil (l : list ptr) :
  somes l = [] <-> forallb (fun p => bool_decide (p = None)) l = true.
Proof.
  induction l as [|[x|] l IH]; simpl; [tauto|split; discriminate|].
  rewrite IH. reflexivity.
Qed.

Lemma iterate_range_count (rs arr fin : list ptr) :
  iterate_range rs arr = Some fin ->
  (length (somes arr) <= length (somes fin) + length (somes rs))%nat.
Proof.
  revert arr. induction rs as [|s rs IH]; intros arr H; simpl in H.
  - injection H as ->. lia.
  - destruct (Nat.ltb_spec (find_storage s arr) (length arr)) as [Hlt|]; [|discriminate].
    pose proof (find_storage_lookup s arr Hlt) as Hl.
    specialize (IH _ H). destruct s as [x|]; simpl.
    + rewrite (somes_clear arr _ x Hl). simpl. lia.
    + rewrite list_insert_id in IH by exact Hl. lia.
Qed.

Lemma iterate_range_permutation (rs arr : list ptr) :
  Forall is_Some rs ->
  ((exists fin, iterate_range rs arr = Some fin /\ somes fin = []) <-> rs ≡ₚ somes arr).
Proof.
  intros Hrs. revert arr. induction Hrs as [|s rs Hs Hrs IH]; intros arr; simpl.
  - split.
    + intros (fin & H & Hf). injection H as ->. rewrite Hf. reflexivity.
    + intros H. exists arr. split; [reflexivity|]. apply Permutation_nil. exact H.
  - destruct Hs as [x ->].
    destruct (Nat.ltb_spec (find_storage (Some x) arr) (length arr)) as [Hlt|Hge].
    + rewrite (IH _). rewrite (somes_clear arr _ x (find_storage_lookup _ _ Hlt)).
      split; [intros H; apply perm_skip, H|apply Permutation_cons_inv].
    + split; [intros (fin & H & _); discriminate|].
      intros H. exfalso. apply (find_storage_missing (Some x) arr); [lia|].
      assert (In (Some x) (somes arr)) as Hin by (eapply Permutation_in; [exact H|left; reflexivity]).
      apply filter_In in Hin. tauto.
Qed.

(** With every storage of the array non-null, [check_iteration] passes
    exactly when the range yields the storages of the array, each once, in
    any order. *)
Theorem check_iteration_permutation (range storages : list ptr)
  (Hstorages : Forall is_Some storages) :
  check_iteration range storages = true <-> range ≡ₚ storages.
Proof.
  unfold check_iteration. rewrite andb_true_iff, Nat.eqb_eq. split.
  - intros [Hlen Hit]. destruct (iterate_range range storages) as [fin|] eqn:E; [|discriminate].
    apply somes_nil in Hit.
    pose proof (iterate_range_count _ _ _ E) as Hc. rewrite Hit, somes_all in Hc by exact Hstorages.
    simpl in Hc. pose proof (somes_length_le range).
    assert (Forall is_Some range) as Hr by (apply somes_full; lia).
    rewrite <- (somes_all storages Hstorages).
    apply (iterate_range_permutation range storages Hr). eauto.
  - intros Hp. split; [apply Permutation_length, Hp|].
    assert (Forall is_Some range) as Hr.
    { apply Forall_forall. intros p Hin. rewrite Forall_forall in Hstorages.
      apply Hstorages. rewrite <- Hp. exact Hin. }
    rewrite <- (somes_all storages Hstorages) in Hp.
    apply (iterate_range_permutation range storages Hr) in Hp as (fin & -> & Hf).
    apply somes_nil, Hf.
Qed.

Lemma check_iteration_permutation_witness :
  check_iteration [Some 3; Some 1; Some 2] [Some 1; Some 2; Some 3] = true.
Proof.
  apply (proj2 (check_iteration_permutation [Some 3; Some 1; Some 2] [Some 1; Some 2; Some 3]
                  ltac:(repeat constructor; eexists; reflexivity))).
  apply perm_trans with (Some 1 :: Some 3 :: [Some 2]); [apply perm_swap|].
  apply perm_skip, perm_swap.
Defined.

End StorageSetTest.
